(** * wg-allowedips: a shallow embedding of [main.go] and its properties

    The program reads an allow-list file of IPv4 literals and hostnames,
    resolves the hostnames with [dig +short], removes duplicates, sorts,
    joins with commas and either prints the list or splices it into a
    WireGuard configuration.

    Go strings are byte sequences: they are modelled by [string], whose
    characters ([ascii]) are the 256 byte values.  The operating system
    (files, the [dig] sub-process) is a [World] that [main] consults; what
    the process writes and its exit code are collected in a [Run]. *)

From Stdlib Require Import NArith ZArith Ascii String DecimalString.
From stdpp Require Import base strings gmap list sorting.

Local Open Scope N_scope.

(** ** Bytes *)

Definition byte_val (c : ascii) : N := N_of_ascii c.

Definition byte_in (lo hi : N) (c : ascii) : bool :=
  (lo <=? byte_val c) && (byte_val c <=? hi).

Definition is_byte (n : N) (c : ascii) : bool := byte_val c =? n.

(** ['0' <= c && c <= '9'] *)
Definition is_digit (c : ascii) : bool := byte_in 48 57 c.
Definition is_lower (c : ascii) : bool := byte_in 97 122 c.
Definition is_upper (c : ascii) : bool := byte_in 65 90 c.
Definition is_alnum (c : ascii) : bool := is_lower c || is_upper c || is_digit c.

Definition dot : ascii := "."%char.
Definition colon : ascii := ":"%char.
Definition LF : ascii := ascii_of_N 10.
Definition CR : ascii := ascii_of_N 13.

(** ** The part of package [strings] that the program calls *)

Module strings.

(** [strings.HasPrefix]. *)
Definition HasPrefix (s p : string) : bool := String.prefix p s.

(** [strings.Contains]. *)
Definition Contains (s sub : string) : bool :=
  match String.index 0 sub s with Some _ => true | None => false end.

(** [strings.Split(s, sep)] for a separator of one byte, the only kind the
    program passes (["."] and ["\n"]): the pieces between the separators,
    one empty piece for the empty string. *)
Fixpoint Split (s : string) (sep : ascii) : list string :=
  match s with
  | EmptyString => [EmptyString]
  | String c rest =>
      if Ascii.eqb c sep then EmptyString :: Split rest sep
      else match Split rest sep with
           | piece :: pieces => String c piece :: pieces
           | [] => [String c EmptyString]
           end
  end.

(** [strings.Join]. *)
Definition Join (elems : list string) (sep : string) : string :=
  String.concat sep elems.

(** White space as [unicode.IsSpace] sees it in UTF-8 text.  One byte:
    tab, LF, VT, FF, CR, space. *)
Definition ascii_space (c : ascii) : bool :=
  byte_in 9 13 c || is_byte 32 c.

(** Two bytes after [0xC2]: U+0085 and U+00A0. *)
Definition space_C2 (c : ascii) : bool := is_byte 133 c || is_byte 160 c.

(** Three bytes: U+1680 after [0xE1]; U+2000..U+200A, U+2028, U+2029,
    U+202F and U+205F after [0xE2]; U+3000 after [0xE3]. *)
Definition space3 (c1 c2 c3 : ascii) : bool :=
  (is_byte 225 c1 && is_byte 154 c2 && is_byte 128 c3)
  || (is_byte 226 c1 && is_byte 128 c2
      && (byte_in 128 138 c3 || is_byte 168 c3 || is_byte 169 c3 || is_byte 175 c3))
  || (is_byte 226 c1 && is_byte 129 c2 && is_byte 159 c3)
  || (is_byte 227 c1 && is_byte 128 c2 && is_byte 128 c3).

(** [strings.TrimLeftFunc(s, unicode.IsSpace)]: drop encoded white space
    from the front. *)
Fixpoint TrimLeft (s : string) : string :=
  match s with
  | EmptyString => EmptyString
  | String c1 s1 =>
      if ascii_space c1 then TrimLeft s1
      else match s1 with
           | String c2 s2 =>
               if is_byte 194 c1 && space_C2 c2 then TrimLeft s2
               else match s2 with
                    | String c3 s3 => if space3 c1 c2 c3 then TrimLeft s3 else s
                    | EmptyString => s
                    end
           | EmptyString => s
           end
  end.

(** The same from the back, on the reversed byte sequence (where the
    bytes of a multi-byte character come last byte first). *)
Fixpoint TrimLeft_rev (r : list ascii) : list ascii :=
  match r with
  | [] => []
  | c1 :: r1 =>
      if ascii_space c1 then TrimLeft_rev r1
      else match r1 with
           | c2 :: r2 =>
               if is_byte 194 c2 && space_C2 c1 then TrimLeft_rev r2
               else match r2 with
                    | c3 :: r3 => if space3 c3 c2 c1 then TrimLeft_rev r3 else r
                    | [] => r
                    end
           | [] => r
           end
  end.

Definition TrimRight (s : string) : string :=
  string_of_list_ascii (rev (TrimLeft_rev (rev (list_ascii_of_string s)))).

(** [strings.TrimSpace]. *)
Definition TrimSpace (s : string) : string := TrimRight (TrimLeft s).

End strings.

(** ** [net.ParseIP] and [IP.To4]

    [net.ParseIP] is [netip.ParseAddr] with zoned addresses refused, the
    result widened to 16 bytes.  The three parsers below follow
    [net/netip] as of Go 1.22: [parseIPv4Fields], [parseIPv6] and
    [ParseAddr].  (Since Go 1.17 an octet with a leading zero is refused;
    the IPv6 text of an IPv4-mapped address has always been accepted.) *)

Module net.

(** The loop of [parseIPv4Fields] over [s = in[off:end]].  [prev] is
    [s[i-1]] ([None] when [i = 0]); [fields] are the octets stored so
    far, so [pos] is their number. *)
Fixpoint parseIPv4Fields_loop (s : string) (prev : option ascii)
    (val digLen : N) (fields : list N) : option (list N) :=
  match s with
  | EmptyString =>
      if (N.of_nat (length fields) <? 3) then None       (* too short *)
      else Some (fields ++ [val])
  | String c rest =>
      if is_digit c then
        if (digLen =? 1) && (val =? 0) then None         (* leading zero *)
        else
          let val := val * 10 + (byte_val c - 48) in
          let digLen := digLen + 1 in
          if 255 <? val then None                        (* value > 255 *)
          else parseIPv4Fields_loop rest (Some c) val digLen fields
      else if Ascii.eqb c dot then
        if match prev with None => true | Some p => Ascii.eqb p dot end
           || match rest with EmptyString => true | _ => false end
        then None                                        (* empty octet *)
        else if N.of_nat (length fields) =? 3 then None  (* too long *)
        else parseIPv4Fields_loop rest (Some c) 0 0 (fields ++ [val])
      else None                                          (* unexpected *)
  end.

Definition parseIPv4Fields (s : string) : option (list N) :=
  parseIPv4Fields_loop s None 0 0 [].

(** [AddrFrom4(fields)] seen through [As16]: the IPv4-mapped form. *)
Definition v4InV6 (fields : list N) : list N :=
  replicate 10 0 ++ [255; 255] ++ fields.

Definition parseIPv4 (s : string) : option (list N) :=
  v4InV6 <$> parseIPv4Fields s.

Definition hex_digit (c : ascii) : option N :=
  if byte_in 48 57 c then Some (byte_val c - 48)
  else if byte_in 97 102 c then Some (byte_val c - 97 + 10)
  else if byte_in 65 70 c then Some (byte_val c - 65 + 10)
  else None.

(** The inner loop of [parseIPv6] reading one hex group: [None] is a
    parse error, [Some (off, acc, s[off:])] the loop left normally. *)
Fixpoint hex_group (s : string) (off : nat) (acc : N) : option (nat * N * string) :=
  match s with
  | EmptyString => Some (off, acc, EmptyString)
  | String c rest =>
      match hex_digit c with
      | None => Some (off, acc, s)
      | Some d =>
          let acc := (N.shiftl acc 4 + d) mod 2 ^ 32 in
          if (3 <? off)%nat then None
          else if 65535 <? acc then None
          else hex_group rest (S off) acc
      end
  end.

(** State of the outer loop when it is left: the rest of the text, the
    number [i] of bytes written, the address bytes and the ellipsis. *)
Record v6state := V6 { v6_s : string; v6_i : nat; v6_ip : list N; v6_ellipsis : Z }.

(** Write [bs] into [ip] from index [i] on. *)
Fixpoint store (ip : list N) (i : nat) (bs : list N) : list N :=
  match bs with
  | [] => ip
  | b :: bs => store (<[i := b]> ip) (S i) bs
  end.

(** The loop [for i < 16].  Every turn that does not leave the loop adds
    two to [i], so eight turns are enough; [fuel] counts them. *)
Fixpoint parseIPv6_loop (fuel : nat) (s : string) (i : nat) (ip : list N)
    (ellipsis : Z) : option v6state :=
  if negb (i <? 16)%nat then Some (V6 s i ip ellipsis) else
  match fuel with
  | O => None
  | S fuel =>
      match hex_group s 0 0 with
      | None => None
      | Some (off, acc, s') =>
          if (off =? 0)%nat then None
          else
            match s' with
            | String c _ =>
                if Ascii.eqb c dot then
                  (* trailing IPv4 *)
                  if (ellipsis <? 0)%Z && negb (i =? 12)%nat then None
                  else if (16 <? i + 4)%nat then None
                  else match parseIPv4Fields s with
                       | None => None
                       | Some fields =>
                           Some (V6 EmptyString (i + 4) (store ip i fields) ellipsis)
                       end
                else
                  let ip := <[S i := acc mod 256]> (<[i := N.shiftr acc 8 mod 256]> ip) in
                  let i := (i + 2)%nat in
                  if negb (Ascii.eqb c colon) then None
                  else match s' with
                       | String _ EmptyString => None
                       | String _ (String c1 s2 as s1) =>
                           if Ascii.eqb c1 colon then
                             if (0 <=? ellipsis)%Z then None
                             else
                               match s2 with
                               | EmptyString => Some (V6 EmptyString i ip (Z.of_nat i))
                               | _ => parseIPv6_loop fuel s2 i ip (Z.of_nat i)
                               end
                           else parseIPv6_loop fuel s1 i ip ellipsis
                       | EmptyString => None
                       end
            | EmptyString =>
                let ip := <[S i := acc mod 256]> (<[i := N.shiftr acc 8 mod 256]> ip) in
                Some (V6 EmptyString (i + 2) ip ellipsis)
            end
      end
  end.

(** Split at the first ['%']: the address text and, when there is a
    ['%'], the zone after it. *)
Fixpoint cut_zone (s : string) : string * option string :=
  match s with
  | EmptyString => (EmptyString, None)
  | String c rest =>
      if is_byte 37 c then (EmptyString, Some rest)
      else let '(a, z) := cut_zone rest in (String c a, z)
  end.

(** [parseIPv6]: the 16 bytes and the zone. *)
Definition parseIPv6 (input : string) : option (list N * string) :=
  let '(s, z) := cut_zone input in
  match z with
  | Some EmptyString => None                       (* empty zone *)
  | _ =>
      let zone := default EmptyString z in
      let ip := replicate 16 0 in
      let '(s, ellipsis, only) :=
        match s with
        | String c0 (String c1 s2) =>
            if Ascii.eqb c0 colon && Ascii.eqb c1 colon
            then (s2, 0%Z, match s2 with EmptyString => true | _ => false end)
            else (s, (-1)%Z, false)
        | _ => (s, (-1)%Z, false)
        end in
      if only then Some (ip, zone)                 (* IPv6Unspecified *)
      else
        match parseIPv6_loop 8 s 0 ip ellipsis with
        | None => None
        | Some (V6 s i ip ellipsis) =>
            match s with
            | String _ _ => None                   (* trailing garbage *)
            | EmptyString =>
                if (i <? 16)%nat then
                  if (ellipsis <? 0)%Z then None   (* too short *)
                  else
                    let e := Z.to_nat ellipsis in
                    let n := (16 - i)%nat in
                    Some (take e ip ++ replicate n 0 ++ take (i - e) (drop e ip), zone)
                else if (0 <=? ellipsis)%Z then None
                else Some (ip, zone)
            end
        end
  end.

(** [netip.ParseAddr], as 16 bytes and a zone: the first of ['.'], [':']
    and ['%'] in the text chooses the parser. *)
Fixpoint ParseAddr_scan (whole s : string) : option (list N * string) :=
  match s with
  | EmptyString => None
  | String c rest =>
      if Ascii.eqb c dot then (fun ip => (ip, EmptyString)) <$> parseIPv4 whole
      else if Ascii.eqb c colon then parseIPv6 whole
      else if is_byte 37 c then None
      else ParseAddr_scan whole rest
  end.

Definition ParseAddr (s : string) : option (list N * string) := ParseAddr_scan s s.

(** [net.ParseIP]: [None] is the nil [IP]. *)
Definition ParseIP (s : string) : option (list N) :=
  match ParseAddr s with
  | Some (ip, EmptyString) => Some ip
  | _ => None
  end.

(** [IP.To4] on a 16-byte [IP]: the last four bytes of an IPv4-mapped
    address, nil otherwise. *)
Definition To4 (ip : list N) : option (list N) :=
  if forallb (N.eqb 0) (take 10 ip)
     && (default 0 (ip !! 10%nat) =? 255) && (default 0 (ip !! 11%nat) =? 255)
  then Some (drop 12 ip) else None.

End net.

(** ** Regular expressions

    The one pattern of the program is matched with Brzozowski derivatives.
    Both of its alternatives begin with [^] and end with [$], and [$]
    without the [m] flag is the end of the text, so [MatchString] is a
    match of the whole text.  A character class holds ASCII characters
    only; a byte of a non-ASCII character is in none. *)

Module regexp.

Inductive Regexp : Type :=
| Void                                  (* matches nothing *)
| Eps                                   (* the empty text *)
| Class (p : ascii -> bool)             (* [...] *)
| Cat (r1 r2 : Regexp)                  (* r1 r2 *)
| Alt (r1 r2 : Regexp)                  (* r1|r2 *)
| Star (r : Regexp).                    (* r* *)

(** [r?] *)
Definition Opt (r : Regexp) : Regexp := Alt r Eps.

Fixpoint nullable (r : Regexp) : bool :=
  match r with
  | Void => false
  | Eps => true
  | Class _ => false
  | Cat r1 r2 => nullable r1 && nullable r2
  | Alt r1 r2 => nullable r1 || nullable r2
  | Star _ => true
  end.

Fixpoint deriv (c : ascii) (r : Regexp) : Regexp :=
  match r with
  | Void => Void
  | Eps => Void
  | Class p => if p c then Eps else Void
  | Cat r1 r2 =>
      if nullable r1 then Alt (Cat (deriv c r1) r2) (deriv c r2)
      else Cat (deriv c r1) r2
  | Alt r1 r2 => Alt (deriv c r1) (deriv c r2)
  | Star r1 => Cat (deriv c r1) (Star r1)
  end.

Fixpoint MatchString (r : Regexp) (s : string) : bool :=
  match s with
  | EmptyString => nullable r
  | String c rest => MatchString (deriv c r) rest
  end.

End regexp.

(** ** The validators of [main.go] *)

(** The loop over [parts] in [isValidIPv4]: [false] at the first part
    longer than one byte that starts with ['0']. *)
Fixpoint no_leading_zero (parts : list string) : bool :=
  match parts with
  | [] => true
  | part :: parts =>
      if (1 <? String.length part)%nat
         && match part with String c _ => is_byte 48 c | EmptyString => false end
      then false
      else no_leading_zero parts
  end.

(** [isValidIPv4] checks if the string is a valid IPv4 address. *)
Definition isValidIPv4 (s : string) : bool :=
  match net.ParseIP s with
  | None => false
  | Some ip =>
      match net.To4 ip with
      | None => false
      | Some _ =>
          let parts := strings.Split s dot in
          if negb (length parts =? 4)%nat then false
          else no_leading_zero parts
      end
  end.

(** [[a-zA-Z0-9]] and [[a-zA-Z0-9-]] *)
Definition alnum_class : regexp.Regexp := regexp.Class is_alnum.
Definition alnum_hyphen_class : regexp.Regexp :=
  regexp.Class (fun c => is_alnum c || is_byte 45 c).

(** [^[a-zA-Z0-9]([a-zA-Z0-9-]*[a-zA-Z0-9])?$|^[a-zA-Z0-9]$] *)
Definition labelPattern : regexp.Regexp :=
  regexp.Alt
    (regexp.Cat alnum_class
       (regexp.Opt (regexp.Cat (regexp.Star alnum_hyphen_class) alnum_class)))
    alnum_class.

(** The loop over [labels] in [isValidHostname]. *)
Fixpoint labels_ok (labels : list string) : bool :=
  match labels with
  | [] => true
  | label :: labels =>
      if (String.length label =? 0)%nat || (63 <? String.length label)%nat then false
      else if negb (regexp.MatchString labelPattern label) then false
      else labels_ok labels
  end.

(** [isValidHostname] checks if the string is a valid hostname (RFC 1123). *)
Definition isValidHostname (s : string) : bool :=
  if (String.length s =? 0)%nat || (253 <? String.length s)%nat then false
  else if negb (strings.Contains s ".") then false
  else labels_ok (strings.Split s dot).

(** The three-way decision that [main] takes on a trimmed line that is
    neither blank nor a comment: the [if / else if / else] on the two
    validators. *)
Inductive Classification : Type := LiteralAddress | DomainName | Invalid.

Definition classify (line : string) : Classification :=
  if isValidIPv4 line then LiteralAddress
  else if isValidHostname line then DomainName
  else Invalid.

(** ** [resolveHostname]: what is kept of the output of [dig +short] *)

(** The loop over [lines]. *)
Fixpoint keep_addresses (lines : list string) (ips : list string) : list string :=
  match lines with
  | [] => ips
  | line :: lines =>
      let line := strings.TrimSpace line in
      if String.eqb line EmptyString then keep_addresses lines ips
      else
        match net.ParseIP line with
        | Some ip =>
            match net.To4 ip with
            | Some _ => keep_addresses lines (ips ++ [line])
            | None => keep_addresses lines ips
            end
        | None => keep_addresses lines ips
        end
  end.

Definition parse_dig_output (output : string) : list string :=
  keep_addresses (strings.Split (strings.TrimSpace output) LF) [].

(** ** [removeDuplicates] and [sort.Strings] *)

(** The loop of [removeDuplicates]; a key that is absent from the Go map
    [seen] reads as [false]. *)
Fixpoint removeDuplicates_loop (seen : gmap string bool) (slice result : list string)
    : list string :=
  match slice with
  | [] => result
  | item :: slice =>
      if negb (default false (seen !! item))
      then removeDuplicates_loop (<[item := true]> seen) slice (result ++ [item])
      else removeDuplicates_loop seen slice result
  end.

Definition removeDuplicates (slice : list string) : list string :=
  removeDuplicates_loop ∅ slice [].

Module sort.

(** Go compares strings byte by byte, a proper prefix first. *)
Definition less (a b : string) : bool := String.ltb a b.

(** Move [x] to its place in the sorted [l]: before the first element
    that is greater. *)
Fixpoint insert (x : string) (l : list string) : list string :=
  match l with
  | [] => [x]
  | y :: l' => if less x y then x :: l else y :: insert x l'
  end.

(** [sort.Strings]: ascending order.  The order on strings is total and
    equal strings are the same string, so every sorting algorithm gives
    this result; insertion sort computes it. *)
Fixpoint Strings (x : list string) : list string :=
  match x with
  | [] => []
  | a :: x => insert a (Strings x)
  end.

End sort.

(** Lines 187-190 of [main]: the final collection and the joined value. *)
Definition aggregate (allIPs : list string) : list string :=
  sort.Strings (removeDuplicates allIPs).

Definition joined (allIPs : list string) : string :=
  strings.Join (aggregate allIPs) ",".

(** ** The process and its environment *)

(** A Go [error], by its message. *)
Definition error : Type := string.

(** A file: the bytes a reader delivers and how the reading ends, at the
    end of the file ([None]) or with an I/O error. *)
Record File : Type := { data : string; failure : option error }.

(** The environment: [os.Open] by path ([None]: the file cannot be
    opened), and the result of [cmd.Output()] for [dig +short hostname],
    which may differ from one invocation to the next and so depends on
    the number of invocations made before. *)
Record World : Type := {
  fs : string -> option File;
  dig : nat -> string -> string + error
}.

(** What the process has done so far: the writes to standard output and
    to standard error, and the number of [dig] runs. *)
Record Proc : Type := { out : list string; err : list string; calls : nat }.

Definition start : Proc := {| out := []; err := []; calls := 0 |}.

(** A computation returns a value or ends the process ([os.Exit]). *)
Inductive Outcome (A : Type) : Type :=
| Ret (a : A) (p : Proc)
| Exit (code : Z) (p : Proc).
Arguments Ret {A} a p.
Arguments Exit {A} code p.

Definition M (A : Type) : Type := Proc -> Outcome A.

#[global] Instance M_ret : MRet M := fun A a p => Ret a p.
#[global] Instance M_bind : MBind M := fun A B f m p =>
  match m p with
  | Ret a p' => f a p'
  | Exit code p' => Exit code p'
  end.

Definition add_out (text : string) (p : Proc) : Proc :=
  {| out := out p ++ [text]; err := err p; calls := calls p |}.

Definition add_err (text : string) (p : Proc) : Proc :=
  {| out := out p; err := err p ++ [text]; calls := calls p |}.

Definition add_call (p : Proc) : Proc :=
  {| out := out p; err := err p; calls := S (calls p) |}.

(** A write to standard output, to standard error. *)
Definition print_out (text : string) : M unit := fun p => Ret tt (add_out text p).
Definition print_err (text : string) : M unit := fun p => Ret tt (add_err text p).

Definition os_Exit {A} (code : Z) : M A := fun p => Exit code p.

Definition newline : string := String LF EmptyString.
Definition ESC : ascii := ascii_of_N 27.
Definition colorRed : string := String ESC "[0;31m".
Definition colorYellow : string := String ESC "[0;33m".
Definition colorReset : string := String ESC "[0m".

(** [%d] of a line number. *)
Definition itoa (n : nat) : string := NilEmpty.string_of_uint (Nat.to_uint n).

(** [fmt.Println(s)] *)
Definition Println (s : string) : M unit := print_out (s +:+ newline).

(** [errorExit] and [warn], applied to the formatted message. *)
Definition error_text (msg : string) : string :=
  colorRed +:+ "ERROR: " +:+ msg +:+ colorReset +:+ newline.
Definition warn_text (msg : string) : string :=
  colorYellow +:+ "WARNING: " +:+ msg +:+ colorReset +:+ newline.

Definition errorExit {A} (msg : string) : M A :=
  print_err (error_text msg) ;; os_Exit 1.

Definition warn (msg : string) : M unit := print_err (warn_text msg).

Definition usage {A} (prog : string) : M A :=
  print_err ("Usage: " +:+ prog +:+ " <allowed-file> [wg-config]" +:+ newline) ;;
  os_Exit 1.

(** ** [bufio.Scanner] with the default split function [ScanLines] *)

Module bufio.

Definition MaxScanTokenSize : N := 65536.
Definition ErrTooLong : error := "bufio.Scanner: token too long".

(** The lines of a text, without their [LF]; a last line that is not
    terminated counts when it is not empty. *)
Fixpoint raw_lines (s : string) : list string :=
  match s with
  | EmptyString => []
  | String c rest =>
      if Ascii.eqb c LF then EmptyString :: raw_lines rest
      else match raw_lines rest with
           | [] => [String c EmptyString]
           | l :: ls => String c l :: ls
           end
  end.

(** [dropCR]: without one [CR] at the end. *)
Fixpoint dropCR (s : string) : string :=
  match s with
  | EmptyString => EmptyString
  | String c EmptyString => if Ascii.eqb c CR then EmptyString else s
  | String c rest => String c (dropCR rest)
  end.

(** The tokens that [Scan] yields and the final [Err()].  A line that
    does not fit into the buffer together with its end stops the scan
    with [ErrTooLong]; after the last line [Err()] is the I/O error of
    the reader, if any. *)
Fixpoint tokens (raws : list string) (failure : option error)
    : list string * option error :=
  match raws with
  | [] => ([], failure)
  | r :: raws =>
      if MaxScanTokenSize <=? N.of_nat (String.length r) then ([], Some ErrTooLong)
      else let '(ts, e) := tokens raws failure in (dropCR r :: ts, e)
  end.

Definition scan (f : File) : list string * option error :=
  tokens (raw_lines (data f)) (failure f).

End bufio.

(** ** [resolveHostname] *)

(** [resolveHostname] uses dig to resolve a hostname to IPv4 addresses. *)
Definition resolveHostname (w : World) (hostname : string) : M (list string + error) :=
  fun p =>
    match dig w (calls p) hostname with
    | inr e => Ret (inr e) (add_call p)
    | inl output => Ret (inl (parse_dig_output output)) (add_call p)
    end.

(** ** [main] *)

(** The three diagnostics of the allow-list loop, formatted. *)
Definition failed_message (lineNum : nat) (line : string) (e : error) : string :=
  "Line " +:+ itoa lineNum +:+ ": Failed to resolve hostname " +:+ line +:+ ": " +:+ e.

Definition no_results_message (lineNum : nat) (line : string) : string :=
  "Line " +:+ itoa lineNum +:+ ": No DNS results for hostname: " +:+ line.

Definition invalid_message (lineNum : nat) (line : string) : string :=
  "Line " +:+ itoa lineNum +:+ ": Invalid entry (not an IPv4 or hostname): " +:+ line.

(** The loop [for scanner.Scan()] over the allow-list: [lineNum] is the
    number of lines read before, [allIPs] the addresses gathered. *)
Fixpoint read_entries (w : World) (lines : list string) (lineNum : nat)
    (allIPs : list string) : M (list string) :=
  match lines with
  | [] => mret allIPs
  | text :: lines =>
      let lineNum := S lineNum in
      let line := strings.TrimSpace text in
      if String.eqb line EmptyString then read_entries w lines lineNum allIPs
      else if strings.HasPrefix line "#" then read_entries w lines lineNum allIPs
      else if isValidIPv4 line then read_entries w lines lineNum (allIPs ++ [line])
      else if isValidHostname line then
        r ← resolveHostname w line;
        match r with
        | inr e =>
            warn (failed_message lineNum line e) ;;
            read_entries w lines lineNum allIPs
        | inl resolvedIPs =>
            if (length resolvedIPs =? 0)%nat then
              warn (no_results_message lineNum line) ;;
              read_entries w lines lineNum allIPs
            else read_entries w lines lineNum (allIPs ++ resolvedIPs)
        end
      else
        errorExit (invalid_message lineNum line)
  end.

(** The loop [for wgScanner.Scan()] over the WireGuard configuration. *)
Fixpoint emit_config (lines : list string) (allowedIPsValue : string) : M unit :=
  match lines with
  | [] => mret tt
  | line :: lines =>
      let trimmed := strings.TrimSpace line in
      (if strings.HasPrefix trimmed "AllowedIPs"
       then print_out ("AllowedIPs = " +:+ allowedIPsValue +:+ newline)
       else Println line) ;;
      emit_config lines allowedIPsValue
  end.

(** Lines 186-220 of [main]: remove duplicates, sort, join, and write in
    the mode that the second argument selects. *)
Definition output (w : World) (wgConfigFile : string) (allIPs : list string) : M unit :=
  let allowedIPsValue := joined allIPs in
  let allIPs := aggregate allIPs in
  if String.eqb wgConfigFile EmptyString then
    if (0 <? length allIPs)%nat then Println allowedIPsValue else mret tt
  else
    match fs w wgConfigFile with
    | None => errorExit ("WireGuard config file does not exist: " +:+ wgConfigFile)
    | Some wgFile =>
        let '(wgLines, wg_err) := bufio.scan wgFile in
        emit_config wgLines allowedIPsValue ;;
        match wg_err with
        | Some e => errorExit ("Error reading WireGuard config file: " +:+ e)
        | None => mret tt
        end
    end.

(** [main], for [os.Args = prog :: args]. *)
Definition main_body (w : World) (prog : string) (args : list string) : M unit :=
  if (length (prog :: args) <? 2)%nat || (3 <? length (prog :: args))%nat
  then usage prog
  else
    let configFile := default EmptyString (args !! 0%nat) in
    let wgConfigFile := default EmptyString (args !! 1%nat) in
    match fs w configFile with
    | None => errorExit ("Config file does not exist: " +:+ configFile)
    | Some file =>
        let '(lines, scan_err) := bufio.scan file in
        allIPs ← read_entries w lines 0 [];
        match scan_err with
        | Some e => errorExit ("Error reading config file: " +:+ e)
        | None => output w wgConfigFile allIPs
        end
    end.

(** A finished run: standard output, standard error, exit code. *)
Record Run : Type := { stdout : list string; stderr : list string; exit_code : Z }.

Definition main (w : World) (prog : string) (args : list string) : Run :=
  match main_body w prog args start with
  | Ret _ p => {| stdout := out p; stderr := err p; exit_code := 0 |}
  | Exit code p => {| stdout := out p; stderr := err p; exit_code := code |}
  end.

(** ** Vocabulary of the properties *)

(** The lines that the allow-list loop passes over: blank after trimming,
    or a comment. *)
Definition is_skipped (text : string) : bool :=
  String.eqb (strings.TrimSpace text) EmptyString
  || strings.HasPrefix (strings.TrimSpace text) "#".

(** A line that is an entry and is classified [Invalid]. *)
Definition invalid_entry (text : string) : Prop :=
  is_skipped text = false /\ classify (strings.TrimSpace text) = Invalid.

(** A write of [warn]. *)
Definition is_warning (text : string) : Prop := exists msg, text = warn_text msg.


(** What the configuration loop writes for one line of the template. *)
Definition config_line (allowedIPsValue line : string) : string :=
  if strings.HasPrefix (strings.TrimSpace line) "AllowedIPs"
  then "AllowedIPs = " +:+ allowedIPsValue +:+ newline
  else line +:+ newline.

#[global] Instance Classification_eq_dec : EqDecision Classification.
Proof. solve_decision. Defined.

#[global] Instance invalid_entry_dec (text : string) : Decision (invalid_entry text).
Proof. unfold invalid_entry. apply _. Defined.

(** ** The literal address of the specification

    In the words of the specification: exactly four dot-separated
    segments, each a decimal integer 0-255, no segment longer than one
    character starting with ['0']. *)

Fixpoint decimal_from (acc : N) (seg : string) : N :=
  match seg with
  | EmptyString => acc
  | String c rest => decimal_from (acc * 10 + (byte_val c - 48)) rest
  end.

Definition decimal_value (seg : string) : N := decimal_from 0 seg.

Fixpoint all_digits (seg : string) : bool :=
  match seg with
  | EmptyString => true
  | String c rest => is_digit c && all_digits rest
  end.

Definition leading_zero (seg : string) : bool :=
  match seg with
  | String c (String _ _) => is_byte 48 c
  | _ => false
  end.

Definition spec_segment (seg : string) : bool :=
  negb (String.eqb seg EmptyString) && all_digits seg
  && (decimal_value seg <=? 255) && negb (leading_zero seg).

Definition spec_dotted_quad (s : string) : bool :=
  match strings.Split s dot with
  | [a; b; c; d] => spec_segment a && spec_segment b && spec_segment c && spec_segment d
  | _ => false
  end.

(** Digits and dots only; with a dot. *)
Fixpoint digits_dots (s : string) : bool :=
  match s with
  | EmptyString => true
  | String c rest => (is_digit c || Ascii.eqb c dot) && digits_dots rest
  end.

Fixpoint has_dot (s : string) : bool :=
  match s with
  | EmptyString => false
  | String c rest => Ascii.eqb c dot || has_dot rest
  end.

(** The test that [isValidIPv4] and [resolveHostname] share:
    [net.ParseIP] gives an address and [To4] is not nil. *)
Definition has_ipv4_form (line : string) : bool :=
  match net.ParseIP line with
  | Some ip => match net.To4 ip with Some _ => true | None => false end
  | None => false
  end.

(** ** The domain name of the specification

    In the words of the specification: 1 to 253 characters, at least one
    dot, labels of 1 to 63 characters, each starting and ending with an
    alphanumeric character, the characters between alphanumeric or
    hyphens. *)

Definition is_alnum_hyphen (c : ascii) : bool := is_alnum c || is_byte 45 c.

Fixpoint all_bytes (p : ascii -> bool) (s : string) : bool :=
  match s with
  | EmptyString => true
  | String c rest => p c && all_bytes p rest
  end.

(** After the first character: nothing, or interior characters and a last
    alphanumeric one. *)
Fixpoint label_tail (s : string) : bool :=
  match s with
  | EmptyString => true
  | String c EmptyString => is_alnum c
  | String c rest => is_alnum_hyphen c && label_tail rest
  end.

Definition spec_label (label : string) : bool :=
  match label with
  | EmptyString => false
  | String c rest => is_alnum c && label_tail rest
  end.

Definition spec_hostname (s : string) : bool :=
  (1 <=? String.length s)%nat && (String.length s <=? 253)%nat
  && has_dot s
  && forallb (fun label => (1 <=? String.length label)%nat
                           && (String.length label <=? 63)%nat
                           && spec_label label)
       (strings.Split s dot).

(** No [':'] in the text. *)
Fixpoint colon_free (s : string) : bool :=
  match s with
  | EmptyString => true
  | String c rest => negb (Ascii.eqb c colon) && colon_free rest
  end.

(** ** Entries, bytes and texts

    The two kinds of entry that the allow-list loop collects from. *)
Definition literal_entry (text : string) : bool :=
  negb (is_skipped text) && bool_decide (classify (strings.TrimSpace text) = LiteralAddress).

Definition domain_entry (text : string) : bool :=
  negb (is_skipped text) && bool_decide (classify (strings.TrimSpace text) = DomainName).

(** The answer of the [k]-th run of [dig], on [hostname], holds the
    address [a] for [resolveHostname]. *)
Definition resolved_from (w : World) (k : nat) (hostname a : string) : Prop :=
  exists output, dig w k hostname = inl output /\ a ∈ parse_dig_output output.

(** The bytes of an address text: hexadecimal digits, ['.'] and [':']. *)
Definition address_byte (c : ascii) : bool :=
  is_digit c || byte_in 97 102 c || byte_in 65 70 c || Ascii.eqb c dot || Ascii.eqb c colon.

(** The bytes of an entry: letters, digits, ['.'], ['-'] and [':']. *)
Definition entry_byte (c : ascii) : bool :=
  is_alnum c || Ascii.eqb c dot || is_byte 45 c || Ascii.eqb c colon.

(** The separator of the joined value. *)
Definition comma : ascii := ","%char.

(** A text with its last line terminated: the text itself when it is
    empty or ends in [LF], the text and an [LF] otherwise. *)
Fixpoint terminated (s : string) : string :=
  match s with
  | EmptyString => EmptyString
  | String c EmptyString => if Ascii.eqb c LF then s else String c newline
  | String c rest => String c (terminated rest)
  end.

(** No [CR] in the text. *)
Definition no_CR (s : string) : bool := all_bytes (fun c => negb (Ascii.eqb c CR)) s.

(** All that the process wrote to standard output, as one text. *)
Definition written (lines : list string) : string := String.concat EmptyString lines.

(** The text starts with encoded white space. *)
Definition front_space (s : string) : bool :=
  match s with
  | EmptyString => false
  | String c1 s1 =>
      strings.ascii_space c1
      || match s1 with
         | String c2 s2 =>
             (is_byte 194 c1 && strings.space_C2 c2)
             || match s2 with
                | String c3 _ => strings.space3 c1 c2 c3
                | EmptyString => false
                end
         | EmptyString => false
         end
  end.

(** ** A sample environment *)

Definition allowed_txt : File :=
  {| data := "# office
10.0.0.2
example.com

10.0.0.10
nx.example
empty.example
10.0.0.1
"; failure := None |}.

Definition bad_txt : File :=
  {| data := "1.2.3.4
nx.example
a_b
10.0.0.1
"; failure := None |}.

Definition comments_txt : File :=
  {| data := "# nothing yet

   # still nothing
"; failure := None |}.

Definition wg0_conf : File :=
  {| data := "[Peer]
PublicKey = abc
  AllowedIPs = 192.168.0.0
AllowedIPsX = 1.2.3.4
Endpoint = vpn.example:51820"; failure := None |}.

(** [example.com] resolves through a CNAME to two addresses,
    [empty.example] to a CNAME only, and [dig] fails for every other
    name. *)
Definition demo : World :=
  {| fs := fun path =>
       if String.eqb path "allowed.txt" then Some allowed_txt
       else if String.eqb path "bad.txt" then Some bad_txt
       else if String.eqb path "comments.txt" then Some comments_txt
       else if String.eqb path "wg0.conf" then Some wg0_conf
       else None;
     dig := fun _ hostname =>
       if String.eqb hostname "example.com" then inl "cname.example.
10.0.0.1
10.9.9.9
"
       else if String.eqb hostname "empty.example" then inl "cname.example.
"
       else inr "exit status 9" |}.

(** ** A second environment, with files that fail

    Reading [torn.txt] and [torn.conf] ends in an I/O error after the
    last line; [plain.conf] has no [AllowedIPs] line and no final
    newline.  The other paths and [dig] are those of [demo]. *)
Definition torn_txt : File :=
  {| data := "10.0.0.1
nx.example
"; failure := Some "read torn.txt: input/output error" |}.

Definition torn_conf : File :=
  {| data := "[Peer]
AllowedIPs = 192.168.0.0
"; failure := Some "read torn.conf: input/output error" |}.

Definition plain_conf : File :=
  {| data := "[Interface]
ListenPort = 51820"; failure := None |}.

Definition faulty : World :=
  {| fs := fun path =>
       if String.eqb path "torn.txt" then Some torn_txt
       else if String.eqb path "torn.conf" then Some torn_conf
       else if String.eqb path "plain.conf" then Some plain_conf
       else fs demo path;
     dig := dig demo |}.

(** ** A third environment, with a line too long for the scanner

    A line of 65536 bytes, and an allow-list with this line between a
    literal address and a line that is no entry. *)
Definition long_line : string :=
  string_of_list_ascii (replicate (N.to_nat bufio.MaxScanTokenSize) "x"%char).

Definition long_txt : File :=
  {| data := "10.0.0.1" +:+ newline +:+ long_line +:+ newline
             +:+ "not an entry" +:+ newline;
     failure := None |}.

Definition oversized : World :=
  {| fs := fun path => if String.eqb path "long.txt" then Some long_txt else fs demo path;
     dig := dig demo |}.

(** * Properties *)

(** ** [parseIPv4Fields] and the dotted quad of the specification *)

Lemma str_app_nil_l (s : string) : EmptyString +:+ s = s.
Proof. reflexivity. Qed.

Lemma str_app_cons (c : ascii) (a b : string) : String c a +:+ b = String c (a +:+ b).
Proof. reflexivity. Qed.

Lemma str_app_nil_r (s : string) : s +:+ EmptyString = s.
Proof. induction s as [|c s IH]; [done|]. by rewrite str_app_cons, IH. Qed.

Lemma str_app_assoc (a b c : string) : (a +:+ b) +:+ c = a +:+ (b +:+ c).
Proof. induction a as [|x a IH]; [done|]. by rewrite !str_app_cons, IH. Qed.

Lemma str_app_snoc (a : string) (c : ascii) (b : string) :
  (a +:+ String c EmptyString) +:+ b = a +:+ String c b.
Proof. by rewrite str_app_assoc. Qed.

Lemma str_length_app (a b : string) :
  String.length (a +:+ b) = (String.length a + String.length b)%nat.
Proof. induction a as [|x a IH]; [done|]. rewrite str_app_cons. simpl. by rewrite IH. Qed.

Lemma all_digits_app (a b : string) :
  all_digits (a +:+ b) = all_digits a && all_digits b.
Proof.
  induction a as [|c a IH]; [done|]. rewrite str_app_cons. simpl.
  by rewrite IH, andb_assoc.
Qed.

Lemma decimal_from_app (acc : N) (a b : string) :
  decimal_from acc (a +:+ b) = decimal_from (decimal_from acc a) b.
Proof.
  revert acc. induction a as [|c a IH]; intros acc; [done|].
  rewrite str_app_cons. simpl. apply IH.
Qed.

Lemma decimal_from_ge (acc : N) (s : string) : acc <= decimal_from acc s.
Proof.
  revert acc. induction s as [|c s IH]; intros acc; simpl; [lia|].
  etrans; [|apply IH]. lia.
Qed.

Lemma Split_nonempty (s : string) (sep : ascii) :
  exists seg segs, strings.Split s sep = seg :: segs.
Proof.
  induction s as [|c s (seg & segs & IH)]; simpl; [by eexists _, _|].
  destruct (Ascii.eqb c sep); [by eexists _, _|]. rewrite IH. by eexists _, _.
Qed.

Lemma is_digit_not_dot (c : ascii) : is_digit c = true -> Ascii.eqb c dot = false.
Proof.
  intros H. apply Ascii.eqb_neq. intros ->. done.
Qed.

Lemma is_digit_zero (c : ascii) :
  is_digit c = true -> (byte_val c - 48 = 0 <-> is_byte 48 c = true).
Proof.
  unfold is_digit, byte_in, is_byte. rewrite andb_true_iff, !N.leb_le, N.eqb_eq. lia.
Qed.

Lemma spec_segment_iff (seg : string) :
  spec_segment seg = true
  <-> seg <> EmptyString /\ all_digits seg = true /\ decimal_value seg <= 255
      /\ leading_zero seg = false.
Proof.
  unfold spec_segment.
  rewrite !andb_true_iff, !negb_true_iff, N.leb_le, String.eqb_neq. tauto.
Qed.

Lemma leading_zero_snoc (cur : string) (c : ascii) (seg : string) :
  all_digits cur = true ->
  leading_zero cur = false ->
  (String.length cur = 1%nat -> decimal_value cur <> 0) ->
  leading_zero (cur +:+ String c EmptyString) = false.
Proof.
  intros Hd Hlz Hone. destruct cur as [|a [|b cur]]; [done| |done].
  rewrite str_app_cons, str_app_nil_l. simpl.
  simpl in Hd. rewrite andb_true_r in Hd.
  destruct (is_byte 48 a) eqn:Ha; [|done].
  destruct Hone; [done|].
  unfold decimal_value. simpl. by apply is_digit_zero.
Qed.

Lemma leading_zero_app_zero (cur : string) (c : ascii) (seg : string) :
  all_digits cur = true ->
  String.length cur = 1%nat -> decimal_value cur = 0 ->
  leading_zero (cur +:+ String c seg) = true.
Proof.
  intros Hd Hlen Hval. destruct cur as [|a [|b cur]]; [done| |done].
  rewrite str_app_cons, str_app_nil_l. simpl.
  simpl in Hd. rewrite andb_true_r in Hd.
  unfold decimal_value in Hval. simpl in Hval. by apply is_digit_zero.
Qed.

Lemma parseIPv4Fields_loop_spec (s : string) :
  forall (cur : string) (prev : option ascii) (val digLen : N) (fields : list N),
    all_digits cur = true ->
    val = decimal_value cur ->
    digLen = N.of_nat (String.length cur) ->
    val <= 255 ->
    leading_zero cur = false ->
    (length fields <= 3)%nat ->
    match prev with
    | None => cur = EmptyString /\ fields = []
    | Some c => if Ascii.eqb c dot then cur = EmptyString /\ s <> EmptyString
                else cur <> EmptyString
    end ->
    is_Some (net.parseIPv4Fields_loop s prev val digLen fields)
    <-> exists seg segs,
          strings.Split s dot = seg :: segs
          /\ spec_segment (cur +:+ seg) = true
          /\ forallb spec_segment segs = true
          /\ (length fields + 1 + length segs = 4)%nat.
Proof.
  induction s as [|c rest IH]; intros cur prev val digLen fields Hd Hval Hlen H255 Hlz Hf Hprev.
  - (* end of the text *)
    simpl.
    split.
    + destruct (N.of_nat (length fields) <? 3) eqn:Hlt; [by intros [? ?]|intros _].
      apply N.ltb_ge in Hlt.
      exists EmptyString, []. rewrite str_app_nil_r. split_and!; [done| |done|simpl; lia].
      apply spec_segment_iff. split_and!; [|done|by rewrite <- Hval|done].
      destruct prev as [p|].
      * destruct (Ascii.eqb p dot); [by destruct Hprev|done].
      * destruct Hprev as [_ ->]. simpl in Hlt. lia.
    + intros (seg & segs & [= <- <-] & _ & _ & Hn). simpl in Hn.
      destruct (N.of_nat (length fields) <? 3) eqn:Hlt; [|done].
      apply N.ltb_lt in Hlt. lia.
  - destruct (Split_nonempty rest dot) as (seg' & segs' & Hsplit).
    cbn [net.parseIPv4Fields_loop strings.Split].
    destruct (is_digit c) eqn:Hdig.
    + (* a digit *)
      rewrite (is_digit_not_dot c Hdig), Hsplit.
      destruct ((digLen =? 1) && (val =? 0)) eqn:Hzero.
      * (* leading zero *)
        apply andb_true_iff in Hzero as [H1%N.eqb_eq H0%N.eqb_eq].
        split; [by intros [? ?]|].
        intros (seg & segs & [= <- <-] & Hseg & _).
        apply spec_segment_iff in Hseg as (_ & _ & _ & Hno).
        rewrite leading_zero_app_zero in Hno; [done|done|lia|congruence].
      * destruct (255 <? val * 10 + (byte_val c - 48)) eqn:Hbig.
        -- (* more than 255 *)
           apply N.ltb_lt in Hbig.
           split; [by intros [? ?]|].
           intros (seg & segs & [= <- <-] & Hseg & _).
           apply spec_segment_iff in Hseg as (_ & _ & Hle & _).
           unfold decimal_value in Hle. rewrite decimal_from_app in Hle. simpl in Hle.
           pose proof (decimal_from_ge (decimal_from 0 cur * 10 + (byte_val c - 48)) seg').
           unfold decimal_value in Hval. lia.
        -- apply N.ltb_ge in Hbig.
           rewrite (IH (cur +:+ String c EmptyString)).
           ++ split.
              ** intros (seg & segs & Hs & Hseg & Hsegs & Hn).
                 rewrite Hsplit in Hs. injection Hs as <- <-.
                 exists (String c seg'), segs'. by rewrite <- str_app_snoc.
              ** intros (seg & segs & [= <- <-] & Hseg & Hsegs & Hn).
                 exists seg', segs'. by rewrite str_app_snoc.
           ++ rewrite all_digits_app, Hd. simpl. by rewrite Hdig.
           ++ unfold decimal_value. rewrite decimal_from_app. simpl.
              unfold decimal_value in Hval. by rewrite Hval.
           ++ rewrite str_length_app. simpl. lia.
           ++ done.
           ++ apply leading_zero_snoc; [done..|].
              intros Hone Hz. apply andb_false_iff in Hzero as [Hz1|Hz2].
              ** apply N.eqb_neq in Hz1. lia.
              ** apply N.eqb_neq in Hz2. congruence.
           ++ done.
           ++ rewrite (is_digit_not_dot c Hdig).
              destruct cur; rewrite ?str_app_cons; done.
    + destruct (Ascii.eqb c dot) eqn:Hdot.
      * (* a dot *)
        apply Ascii.eqb_eq in Hdot as ->.
        destruct (match prev with None => true | Some p => Ascii.eqb p dot end
                  || match rest with EmptyString => true | _ => false end) eqn:Hempty.
        -- split; [by intros [? ?]|].
           intros (seg & segs & [= <- <-] & Hseg & Hsegs & Hn).
           rewrite str_app_nil_r in Hseg.
           apply spec_segment_iff in Hseg as (Hne & _).
           apply orb_true_iff in Hempty as [Hp|Hr].
           ++ destruct prev as [p|]; [rewrite Hp in Hprev|]; by destruct Hprev.
           ++ destruct rest; [|done]. simpl in Hsegs. done.
        -- apply orb_false_iff in Hempty as [Hp Hr].
           destruct prev as [p|]; [|done]. rewrite Hp in Hprev.
           destruct (N.of_nat (length fields) =? 3) eqn:H3.
           ++ apply N.eqb_eq in H3.
              split; [by intros [? ?]|].
              intros (seg & segs & [= <- <-] & _ & _ & Hn).
              rewrite Hsplit in Hn. simpl in Hn. lia.
           ++ apply N.eqb_neq in H3.
              rewrite (IH EmptyString); try done.
              ** rewrite Hsplit. split.
                 --- intros (seg & segs & [= <- <-] & Hseg & Hsegs & Hn).
                     rewrite str_app_nil_l in Hseg.
                     exists EmptyString, (seg' :: segs').
                     rewrite str_app_nil_r. rewrite length_app in Hn. simpl in *.
                     split_and!; [done| | |lia].
                     +++ apply spec_segment_iff. by rewrite <- Hval.
                     +++ by rewrite Hseg, Hsegs.
                 --- intros (seg & segs & [= <- <-] & Hseg & Hsegs & Hn).
                     simpl in Hsegs. apply andb_true_iff in Hsegs as [Hs1 Hs2].
                     exists seg', segs'. rewrite length_app. simpl in *.
                     split_and!; [done|done|done|lia].
              ** rewrite length_app. simpl. lia.
              ** simpl. split; [done|]. by destruct rest.
      * (* any other byte *)
        rewrite Hsplit.
        split; [by intros [? ?]|].
        intros (seg & segs & [= <- <-] & Hseg & _).
        apply spec_segment_iff in Hseg as (_ & Hall & _).
        rewrite all_digits_app in Hall. simpl in Hall. rewrite Hdig in Hall.
        by rewrite andb_false_r in Hall.
Qed.

Lemma parseIPv4Fields_dotted_quad (s : string) :
  is_Some (net.parseIPv4Fields s) <-> spec_dotted_quad s = true.
Proof.
  unfold net.parseIPv4Fields.
  rewrite (parseIPv4Fields_loop_spec s EmptyString None 0 0 []);
    [|done|done|done|lia|done|simpl; lia|done].
  unfold spec_dotted_quad. split.
  - intros (seg & segs & -> & Hseg & Hsegs & Hn).
    rewrite str_app_nil_l in Hseg.
    destruct segs as [|b [|c [|d [|? ?]]]]; simpl in Hn; try lia.
    simpl in Hsegs. rewrite andb_true_r in Hsegs. by rewrite Hseg, <- andb_assoc.
  - destruct (strings.Split s dot) as [|a [|b [|c [|d [|? ?]]]]]; try done.
    rewrite !andb_true_iff. intros [[[Ha Hb] Hc] Hd].
    exists a, [b; c; d]. rewrite str_app_nil_l. simpl.
    by rewrite Hb, Hc, Hd.
Qed.

Lemma Split_digits_dots (s : string) :
  forallb all_digits (strings.Split s dot) = true -> digits_dots s = true.
Proof.
  induction s as [|c s IH]; [done|]. simpl.
  destruct (Ascii.eqb c dot) eqn:Hc; simpl.
  - rewrite orb_true_r. apply IH.
  - destruct (Split_nonempty s dot) as (seg & segs & Hs). rewrite Hs in *. simpl.
    rewrite orb_false_r, <- andb_assoc, !andb_true_iff. intros (-> & H1 & H2).
    split; [done|]. apply IH. simpl. by rewrite H1, H2.
Qed.

Lemma Split_has_dot (s : string) :
  (2 <= length (strings.Split s dot))%nat -> has_dot s = true.
Proof.
  induction s as [|c s IH]; simpl; [lia|].
  destruct (Ascii.eqb c dot); [done|]. simpl.
  destruct (Split_nonempty s dot) as (seg & segs & Hs). rewrite Hs in *. apply IH.
Qed.

Lemma spec_dotted_quad_chars (s : string) :
  spec_dotted_quad s = true -> digits_dots s = true /\ has_dot s = true.
Proof.
  unfold spec_dotted_quad. intros H. split.
  - apply Split_digits_dots.
    destruct (strings.Split s dot) as [|a [|b [|c [|d [|? ?]]]]]; try done.
    unfold spec_segment in H. simpl.
    repeat (apply andb_true_iff in H as [H ?]).
    repeat (match goal with H : _ && _ = true |- _ => apply andb_true_iff in H as [H ?] end).
    repeat (apply andb_true_iff; split); done.
  - apply Split_has_dot.
    destruct (strings.Split s dot) as [|a [|b [|c [|d [|? ?]]]]]; try done. simpl. lia.
Qed.

Lemma digits_dots_colon_free (s : string) : digits_dots s = true -> colon_free s = true.
Proof.
  induction s as [|c s IH]; [done|]. simpl.
  rewrite !andb_true_iff, orb_true_iff. intros [Hc Hs]. split; [|by apply IH].
  apply negb_true_iff, Ascii.eqb_neq. intros ->. by destruct Hc.
Qed.

Lemma ParseAddr_scan_dotted (whole s : string) :
  digits_dots s = true -> has_dot s = true ->
  net.ParseAddr_scan whole s = (fun ip => (ip, EmptyString)) <$> net.parseIPv4 whole.
Proof.
  induction s as [|c s IH]; [done|]. simpl.
  destruct (Ascii.eqb c dot) eqn:Hdot; [done|]. simpl.
  rewrite orb_false_r, andb_true_iff. intros [Hc Hs] Hd.
  assert (Ascii.eqb c colon = false) as ->.
  { apply Ascii.eqb_neq. intros ->. done. }
  assert (is_byte 37 c = false) as ->.
  { unfold is_digit, byte_in in Hc. unfold is_byte.
    apply andb_true_iff in Hc as [H1%N.leb_le H2]. apply N.eqb_neq. lia. }
  by apply IH.
Qed.

Lemma ParseAddr_scan_colon_free (whole s : string) (r : list N * string) :
  colon_free s = true ->
  net.ParseAddr_scan whole s = Some r ->
  exists fields, net.parseIPv4Fields whole = Some fields
                 /\ r = (net.v4InV6 fields, EmptyString).
Proof.
  induction s as [|c s IH]; [done|]. simpl.
  rewrite andb_true_iff, negb_true_iff. intros [-> Hs].
  destruct (Ascii.eqb c dot).
  - unfold net.parseIPv4. destruct (net.parseIPv4Fields whole) as [fields|]; [|done].
    intros [= <-]. by exists fields.
  - destruct (is_byte 37 c); [done|]. by apply IH.
Qed.

Lemma To4_v4InV6 (fields : list N) : net.To4 (net.v4InV6 fields) = Some fields.
Proof. reflexivity. Qed.

Lemma no_leading_zero_spec (parts : list string) :
  forallb spec_segment parts = true -> no_leading_zero parts = true.
Proof.
  induction parts as [|part parts IH]; [done|]. simpl.
  rewrite andb_true_iff. intros [Hp Hs].
  apply spec_segment_iff in Hp as (_ & _ & _ & Hlz).
  destruct part as [|a [|b part]]; simpl in *; [by apply IH..|].
  rewrite Hlz. by apply IH.
Qed.

(** The test shared by [isValidIPv4] and [resolveHostname], on text
    without [':']: it holds of the dotted quads of the specification and
    of nothing else. *)
Lemma has_ipv4_form_dotted_quad (s : string) :
  spec_dotted_quad s = true <-> has_ipv4_form s = true /\ colon_free s = true.
Proof.
  split.
  - intros Hq.
    destruct (spec_dotted_quad_chars s Hq) as [Hchars Hdot].
    split; [|by apply digits_dots_colon_free].
    pose proof (proj2 (parseIPv4Fields_dotted_quad s) Hq) as [fields Hfields].
    unfold has_ipv4_form, net.ParseIP, net.ParseAddr.
    rewrite (ParseAddr_scan_dotted s s Hchars Hdot).
    unfold net.parseIPv4. rewrite Hfields.
    change ((fun ip : list N => (ip, EmptyString)) <$> (net.v4InV6 <$> Some fields))
      with (Some (net.v4InV6 fields, EmptyString)).
    cbv beta iota. by rewrite To4_v4InV6.
  - intros [Hv Hfree]. apply parseIPv4Fields_dotted_quad.
    unfold has_ipv4_form, net.ParseIP, net.ParseAddr in Hv.
    destruct (net.ParseAddr_scan s s) as [[ip zone]|] eqn:Hscan; [|done].
    destruct (ParseAddr_scan_colon_free s s _ Hfree Hscan) as (fields & -> & _).
    by eexists.
Qed.

Lemma has_ipv4_form_colon_free (line : string) :
  colon_free line = true -> has_ipv4_form line = spec_dotted_quad line.
Proof.
  intros Hfree. destruct (spec_dotted_quad line) eqn:Hq.
  - by apply has_ipv4_form_dotted_quad in Hq as [Hv _].
  - apply not_true_is_false. intros Hform.
    assert (spec_dotted_quad line = true) by by apply has_ipv4_form_dotted_quad.
    congruence.
Qed.

(** [isValidIPv4] is the shared test, then the count of the parts and the
    search for a leading zero. *)
Lemma isValidIPv4_unfold (s : string) :
  isValidIPv4 s
  = has_ipv4_form s && (length (strings.Split s dot) =? 4)%nat
    && no_leading_zero (strings.Split s dot).
Proof.
  unfold isValidIPv4, has_ipv4_form.
  destruct (net.ParseIP s) as [ip|]; [|done]. destruct (net.To4 ip); [|done].
  by destruct (length (strings.Split s dot) =? 4)%nat.
Qed.

(** On text without [':'] the literal addresses of [isValidIPv4] are the
    4-dotted-decimal addresses of the specification, and every one of
    those is accepted. *)
Theorem isValidIPv4_dotted_quad (s : string) :
  spec_dotted_quad s = true <-> isValidIPv4 s = true /\ colon_free s = true.
Proof.
  rewrite isValidIPv4_unfold, has_ipv4_form_dotted_quad. split.
  - intros [Hform Hfree]. split; [|done].
    assert (spec_dotted_quad s = true) as Hq by by apply has_ipv4_form_dotted_quad.
    rewrite Hform. unfold spec_dotted_quad in Hq.
    destruct (strings.Split s dot) as [|a [|b [|c [|d [|? ?]]]]] eqn:Hs; try done.
    apply no_leading_zero_spec. simpl. by rewrite andb_true_r, !andb_assoc.
  - rewrite !andb_true_iff. tauto.
Qed.

(** The fuel of [parseIPv6_loop] never runs out: from eight turns on the
    result does not depend on it. *)
Lemma parseIPv6_loop_fuel (fuel : nat) :
  forall (fuel' : nat) (s : string) (i : nat) (ip : list N) (ellipsis : Z),
    (16 <= i + 2 * fuel)%nat -> (fuel <= fuel')%nat ->
    net.parseIPv6_loop fuel' s i ip ellipsis = net.parseIPv6_loop fuel s i ip ellipsis.
Proof.
  induction fuel as [|fuel IH]; intros fuel' s i ip ellipsis Hi Hle.
  - assert ((i <? 16)%nat = false) as Hlt by (apply Nat.ltb_ge; lia).
    destruct fuel'; simpl; by rewrite Hlt.
  - destruct fuel' as [|fuel']; [lia|].
    simpl. destruct (i <? 16)%nat eqn:Hlt; [|done]. apply Nat.ltb_lt in Hlt. simpl.
    repeat case_match; try done; apply IH; lia.
Qed.

Lemma keep_addresses_filter (lines ips : list string) :
  keep_addresses lines ips
  = ips ++ List.filter has_ipv4_form (map strings.TrimSpace lines).
Proof.
  revert ips. induction lines as [|line lines IH]; intros ips.
  - simpl. by rewrite app_nil_r.
  - cbn [keep_addresses map List.filter].
    destruct (String.eqb_spec (strings.TrimSpace line) EmptyString) as [Heq|Hne].
    + rewrite Heq. apply IH.
    + unfold has_ipv4_form at 1.
      destruct (net.ParseIP (strings.TrimSpace line)) as [ip|]; [|apply IH].
      destruct (net.To4 ip); [|apply IH].
      rewrite IH. by rewrite <- app_assoc.
Qed.

(** [resolveHostname] keeps, in their order, the trimmed lines that
    [net.ParseIP] reads as an address with a 4-byte form; among lines
    without [':'] these are the 4-dotted-decimal addresses of the
    specification. *)
Theorem resolver_keeps_ipv4_forms (output : string) :
  parse_dig_output output
  = List.filter has_ipv4_form
      (map strings.TrimSpace (strings.Split (strings.TrimSpace output) LF))
  /\ (forall line, colon_free line = true -> has_ipv4_form line = spec_dotted_quad line).
Proof.
  split; [apply keep_addresses_filter|apply has_ipv4_form_colon_free].
Qed.

(** ** The label pattern and the domain name of the specification *)

Lemma match_void (s : string) : regexp.MatchString regexp.Void s = false.
Proof. induction s; simpl; done. Qed.

Lemma match_eps (s : string) :
  regexp.MatchString regexp.Eps s = match s with EmptyString => true | _ => false end.
Proof. destruct s; simpl; [done|apply match_void]. Qed.

Lemma match_alt (r1 r2 : regexp.Regexp) (s : string) :
  regexp.MatchString (regexp.Alt r1 r2) s = regexp.MatchString r1 s || regexp.MatchString r2 s.
Proof. revert r1 r2. induction s as [|c s IH]; intros r1 r2; simpl; [done|apply IH]. Qed.

Lemma match_cat_void (r : regexp.Regexp) (s : string) : regexp.MatchString (regexp.Cat regexp.Void r) s = false.
Proof. induction s; simpl; done. Qed.

Lemma match_cat_eps (r : regexp.Regexp) (s : string) : regexp.MatchString (regexp.Cat regexp.Eps r) s = regexp.MatchString r s.
Proof.
  destruct s as [|c s]; simpl; [done|]. by rewrite match_alt, match_cat_void.
Qed.

Lemma match_class (p : ascii -> bool) (s : string) :
  regexp.MatchString (regexp.Class p) s = match s with String c EmptyString => p c | _ => false end.
Proof.
  destruct s as [|c s]; simpl; [done|].
  destruct (p c); [rewrite match_eps|rewrite match_void]; by destruct s.
Qed.

Lemma match_star_class (p : ascii -> bool) (s : string) :
  regexp.MatchString (regexp.Star (regexp.Class p)) s = all_bytes p s.
Proof.
  induction s as [|c s IH]; simpl; [done|].
  destruct (p c); simpl; [by rewrite match_cat_eps|apply match_cat_void].
Qed.

Lemma match_cat (r1 r2 : regexp.Regexp) (s : string) :
  regexp.MatchString (regexp.Cat r1 r2) s = true
  <-> exists s1 s2, s = s1 +:+ s2 /\ regexp.MatchString r1 s1 = true /\ regexp.MatchString r2 s2 = true.
Proof.
  revert r1. induction s as [|c s IH]; intros r1.
  - simpl. rewrite andb_true_iff. split.
    + intros [H1 H2]. by exists EmptyString, EmptyString.
    + intros (s1 & s2 & Hs & H1 & H2). destruct s1; [|done].
      rewrite str_app_nil_l in Hs. by subst s2.
  - simpl. destruct (regexp.nullable r1) eqn:Hnull.
    + rewrite match_alt, orb_true_iff, IH. split.
      * intros [(s1 & s2 & -> & H1 & H2)|H2].
        -- by exists (String c s1), s2.
        -- by exists EmptyString, (String c s).
      * intros (s1 & s2 & Hs & H1 & H2). destruct s1 as [|c1 s1].
        -- rewrite str_app_nil_l in Hs. subst s2. by right.
        -- rewrite str_app_cons in Hs. injection Hs as <- ->. left. by exists s1, s2.
    + rewrite IH. split.
      * intros (s1 & s2 & -> & H1 & H2). by exists (String c s1), s2.
      * intros (s1 & s2 & Hs & H1 & H2). destruct s1 as [|c1 s1].
        -- simpl in H1. congruence.
        -- rewrite str_app_cons in Hs. injection Hs as <- ->. by exists s1, s2.
Qed.

Lemma match_alnum (s : string) :
  regexp.MatchString alnum_class s = match s with String c EmptyString => is_alnum c | _ => false end.
Proof. apply match_class. Qed.

(** Interior characters and a last alphanumeric one. *)
Lemma match_tail (s : string) :
  regexp.MatchString (regexp.Cat (regexp.Star alnum_hyphen_class) alnum_class) s = true
  <-> s <> EmptyString /\ label_tail s = true.
Proof.
  rewrite match_cat. split.
  - intros (s1 & s2 & -> & H1 & H2).
    unfold alnum_hyphen_class in H1. rewrite match_star_class in H1.
    unfold alnum_class in H2. rewrite match_class in H2.
    destruct s2 as [|z [|? ?]]; try done.
    induction s1 as [|c s1 IH]; [done|].
    rewrite str_app_cons. simpl in H1. apply andb_true_iff in H1 as [Hc H1].
    destruct (IH H1) as [Hne Htail]. split; [done|]. simpl.
    destruct (s1 +:+ String z EmptyString) eqn:Heq; [done|].
    unfold is_alnum_hyphen. by rewrite Hc.
  - intros [Hne Htail]. induction s as [|c s IH]; [done|].
    destruct s as [|c' s].
    + exists EmptyString, (String c EmptyString). split_and!; [done|done|].
      unfold alnum_class. by rewrite match_class.
    + simpl in Htail. apply andb_true_iff in Htail as [Hc Htail].
      destruct IH as (s1 & s2 & Hs & H1 & H2); [done|done|].
      exists (String c s1), s2. split_and!; [by rewrite str_app_cons, <- Hs| |done].
      unfold alnum_hyphen_class in *. rewrite match_star_class in *. simpl.
      by rewrite H1, andb_true_r.
Qed.

Lemma labelPattern_spec (label : string) :
  regexp.MatchString labelPattern label = spec_label label.
Proof.
  apply eq_true_iff_eq. unfold labelPattern, regexp.Opt.
  rewrite match_alt, orb_true_iff, match_cat.
  rewrite match_alnum.
  split.
  - intros [(s1 & s2 & -> & H1 & H2)|H].
    + rewrite match_alnum in H1.
      destruct s1 as [|a [|? ?]]; try done.
      rewrite str_app_cons, str_app_nil_l. simpl. rewrite H1. simpl.
      rewrite match_alt, orb_true_iff, match_eps in H2.
      destruct H2 as [H2|H2]; [by apply match_tail in H2 as [_ ?]|by destruct s2].
    + destruct label as [|a [|? ?]]; try done. simpl. by rewrite H.
  - destruct label as [|a rest]; [done|]. simpl. rewrite andb_true_iff. intros [Ha Htail].
    left. exists (String a EmptyString), rest. split_and!; [done| |].
    + by rewrite match_alnum.
    + rewrite match_alt, orb_true_iff, match_eps.
      destruct rest as [|c rest]; [by right|left]. by apply match_tail.
Qed.

Lemma Contains_dot (s : string) : strings.Contains s "." = has_dot s.
Proof.
  unfold strings.Contains. induction s as [|c s IH]; [done|].
  cbn [String.index has_dot String.prefix].
  destruct (ascii_dec "." c) as [<-|Hne].
  - by destruct s.
  - assert (Ascii.eqb c dot = false) as -> by (apply Ascii.eqb_neq; unfold dot; congruence).
    simpl. rewrite <- IH. by destruct (String.index 0 "." s).
Qed.

Lemma labels_ok_spec (labels : list string) :
  labels_ok labels
  = forallb (fun label => (1 <=? String.length label)%nat
                          && (String.length label <=? 63)%nat
                          && spec_label label) labels.
Proof.
  induction labels as [|label labels IH]; [done|]. simpl.
  rewrite labelPattern_spec, IH.
  destruct (String.length label) as [|n] eqn:Hlen; [done|]. simpl.
  destruct (63 <? S n)%nat eqn:H1.
  - apply Nat.ltb_lt in H1.
    assert ((n <=? 62)%nat = false) as -> by (apply Nat.leb_gt; lia). done.
  - apply Nat.ltb_ge in H1.
    assert ((n <=? 62)%nat = true) as -> by (apply Nat.leb_le; lia).
    by destruct (spec_label label).
Qed.

(** [isValidHostname] accepts the domain names of the specification: 1
    to 253 bytes, a dot, and labels of 1 to 63 bytes that start and end
    with a letter or digit and hold letters, digits and hyphens only. *)
Theorem isValidHostname_spec (s : string) : isValidHostname s = spec_hostname s.
Proof.
  unfold isValidHostname, spec_hostname.
  rewrite Contains_dot, labels_ok_spec.
  destruct (String.length s) as [|n] eqn:Hlen; [done|]. simpl.
  destruct (253 <? S n)%nat eqn:H1.
  - apply Nat.ltb_lt in H1.
    assert ((n <=? 252)%nat = false) as -> by (apply Nat.leb_gt; lia). done.
  - apply Nat.ltb_ge in H1.
    assert ((n <=? 252)%nat = true) as -> by (apply Nat.leb_le; lia).
    by destruct (has_dot s).
Qed.

(** ** The parsers on particular texts *)

Example ParseIP_dotted :
  net.ParseIP "192.168.1.10" = Some [0; 0; 0; 0; 0; 0; 0; 0; 0; 0; 255; 255; 192; 168; 1; 10].
Proof. reflexivity. Qed.

Example ParseIP_mapped :
  net.ParseIP "::ffff:1.2.3.4" = Some [0; 0; 0; 0; 0; 0; 0; 0; 0; 0; 255; 255; 1; 2; 3; 4].
Proof. reflexivity. Qed.

Example ParseIP_ipv6 :
  net.ParseIP "2001:db8::1" = Some [32; 1; 13; 184; 0; 0; 0; 0; 0; 0; 0; 0; 0; 0; 0; 1]
  /\ (net.ParseIP "2001:db8::1" ≫= net.To4) = None.
Proof. split; reflexivity. Qed.

Example ParseIP_refused :
  Forall (fun s => net.ParseIP s = None)
    ["01.2.3.4"; "1.2.3"; "1.2.3.4.5"; "256.1.1.1"; "1.2.3.4."; ".1.2.3.4"; "1..2.3";
     "1.2.3.4 "; "example.com"; "fe80::1%eth0"; "1:2:3:4:5:6:7"; "1:2:3:4:5:6:7:8::";
     "12345::"; "::ffff:1.2.3.4:"; "1::2::3"; EmptyString].
Proof. repeat constructor. Qed.

Example isValidHostname_examples :
  Forall (fun s => isValidHostname s = true) ["example.com"; "a.b"; "x-1.y-2.z9"; "1.2.3"]
  /\ Forall (fun s => isValidHostname s = false)
       ["localhost"; "a..b"; "-a.com"; "a-.com"; "a_b.com"; ".com"; "com."; EmptyString].
Proof. split; repeat constructor. Qed.

Example TrimSpace_examples :
  strings.TrimSpace "  10.0.0.1	 " = "10.0.0.1"
  /\ strings.TrimSpace "   " = EmptyString
  /\ strings.TrimSpace " a b " = "a b".
Proof. split_and!; reflexivity. Qed.

Example scan_examples :
  bufio.scan {| data := "a
b" +:+ String CR newline +:+ newline +:+ "c"; failure := None |}
  = (["a"; "b"; EmptyString; "c"], None).
Proof. reflexivity. Qed.

(** ** The order of [sort.Strings] *)

Definition str_le (a b : string) : Prop := String.leb a b = true.
Definition str_lt (a b : string) : Prop := sort.less a b = true.

Lemma ascii_compare_lt_trans (a b c : ascii) :
  Ascii.compare a b = Lt -> Ascii.compare b c = Lt -> Ascii.compare a c = Lt.
Proof.
  unfold Ascii.compare. rewrite !N.compare_lt_iff. lia.
Qed.

Lemma string_compare_lt_trans (a b c : string) :
  String.compare a b = Lt -> String.compare b c = Lt -> String.compare a c = Lt.
Proof.
  revert b c. induction a as [|x a IH]; intros [|y b] [|z c]; simpl; try done.
  destruct (Ascii.compare x y) eqn:Hxy; try done.
  - apply Ascii.compare_eq_iff in Hxy as ->.
    destruct (Ascii.compare y z); try done. apply IH.
  - intros _. destruct (Ascii.compare y z) eqn:Hyz; try done.
    + apply Ascii.compare_eq_iff in Hyz as <-. by rewrite Hxy.
    + by rewrite (ascii_compare_lt_trans _ _ _ Hxy Hyz).
Qed.

Lemma str_le_cases (a b : string) : str_le a b <-> a = b \/ String.compare a b = Lt.
Proof.
  unfold str_le, String.leb.
  destruct (String.compare a b) eqn:H; split; try done; try by (intros; right).
  - intros _. left. by apply String.compare_eq_iff.
  - intros [->|?]; [|done].
    pose proof (String.compare_antisym b b) as Hb. rewrite H in Hb. done.
Qed.

Lemma str_lt_cases (a b : string) : str_lt a b <-> String.compare a b = Lt.
Proof.
  unfold str_lt, sort.less, String.ltb. by destruct (String.compare a b).
Qed.

#[global] Instance str_le_trans : Transitive str_le.
Proof.
  intros a b c. rewrite !str_le_cases. intros [->|Hab] [->|Hbc]; auto.
  right. eapply string_compare_lt_trans; eauto.
Qed.

#[global] Instance str_le_antisym : AntiSymm (=) str_le.
Proof. intros a b Hab Hba. by apply String.leb_antisym. Qed.

#[global] Instance str_le_total : Total str_le.
Proof. intros a b. apply String.leb_total. Qed.

Lemma not_less_le (a b : string) : sort.less a b = false -> str_le b a.
Proof.
  unfold sort.less, String.ltb, str_le, String.leb.
  rewrite (String.compare_antisym a b).
  by destruct (String.compare b a).
Qed.

Lemma less_le (a b : string) : sort.less a b = true -> str_le a b.
Proof.
  unfold sort.less, String.ltb, str_le, String.leb.
  by destruct (String.compare a b).
Qed.

(** ** [sort.Strings] sorts *)

Lemma insert_Permutation (x : string) (l : list string) : sort.insert x l ≡ₚ x :: l.
Proof.
  induction l as [|y l IH]; simpl; [done|].
  destruct (sort.less x y); [done|].
  rewrite IH. apply Permutation_swap.
Qed.

Lemma insert_Sorted (x : string) (l : list string) :
  Sorted str_le l -> Sorted str_le (sort.insert x l).
Proof.
  induction 1 as [|y l Hl IH Hhd]; simpl.
  - repeat constructor.
  - destruct (sort.less x y) eqn:Hxy.
    + constructor; [by constructor|]. constructor. by apply less_le.
    + constructor; [done|].
      apply not_less_le in Hxy.
      destruct Hhd as [|z l Hyz]; simpl.
      * by constructor.
      * destruct (sort.less x z); by constructor.
Qed.

Lemma Strings_Permutation (l : list string) : sort.Strings l ≡ₚ l.
Proof.
  induction l as [|x l IH]; simpl; [done|].
  by rewrite insert_Permutation, IH.
Qed.

Lemma Strings_Sorted (l : list string) : Sorted str_le (sort.Strings l).
Proof.
  induction l as [|x l IH]; simpl; [constructor|]. by apply insert_Sorted.
Qed.

(** ** [removeDuplicates] keeps one of each *)

Lemma removeDuplicates_loop_spec (seen : gmap string bool) (slice result : list string) :
  (forall x, default false (seen !! x) = true <-> x ∈ result) ->
  NoDup result ->
  NoDup (removeDuplicates_loop seen slice result)
  /\ (forall x, x ∈ removeDuplicates_loop seen slice result <-> x ∈ result \/ x ∈ slice).
Proof.
  revert seen result. induction slice as [|item slice IH]; intros seen result Hseen Hnd; simpl.
  - split; [done|]. intros x. rewrite elem_of_nil. tauto.
  - destruct (default false (seen !! item)) eqn:Hitem; simpl.
    + destruct (IH seen result Hseen Hnd) as [H1 H2]. split; [done|].
      intros x. rewrite H2, elem_of_cons.
      apply Hseen in Hitem. intuition (subst; auto).
    + assert (item ∉ result) as Hnotin.
      { intros Hin. apply Hseen in Hin. congruence. }
      destruct (IH (<[item := true]> seen) (result ++ [item])) as [H1 H2].
      * intros x. rewrite elem_of_app, list_elem_of_singleton.
        destruct (decide (item = x)) as [->|Hne].
        -- rewrite lookup_insert_eq. simpl. tauto.
        -- rewrite lookup_insert_ne by done. rewrite Hseen.
           intuition (subst; auto; congruence).
      * apply NoDup_app. split_and!; [done| |apply NoDup_singleton].
        intros x Hx. rewrite list_elem_of_singleton. by intros ->.
      * split; [done|]. intros x.
        rewrite H2, elem_of_app, list_elem_of_singleton, elem_of_cons. tauto.
Qed.

Lemma removeDuplicates_NoDup (l : list string) : NoDup (removeDuplicates l).
Proof.
  apply removeDuplicates_loop_spec; [|constructor].
  intros x. rewrite lookup_empty, elem_of_nil. simpl. intuition congruence.
Qed.

Lemma removeDuplicates_elem_of (l : list string) (x : string) :
  x ∈ removeDuplicates l <-> x ∈ l.
Proof.
  unfold removeDuplicates.
  destruct (removeDuplicates_loop_spec ∅ l []) as [_ H]; [|constructor|].
  - intros y. rewrite lookup_empty, elem_of_nil. simpl. intuition congruence.
  - rewrite H, elem_of_nil. tauto.
Qed.

Lemma removeDuplicates_loop_NoDup (seen : gmap string bool) (slice result : list string) :
  (forall x, default false (seen !! x) = true <-> x ∈ result) ->
  NoDup (result ++ slice) ->
  removeDuplicates_loop seen slice result = result ++ slice.
Proof.
  revert seen result. induction slice as [|item slice IH]; intros seen result Hseen Hnd; simpl.
  - by rewrite app_nil_r.
  - apply NoDup_app in Hnd as (Hr & Hdisj & Hs).
    apply NoDup_cons in Hs as [Hitem Hs].
    assert (default false (seen !! item) = false) as ->.
    { apply not_true_is_false. intros H. apply Hseen in H.
      apply (Hdisj item H). by left. }
    simpl. rewrite IH.
    + by rewrite <- app_assoc.
    + intros x. rewrite elem_of_app, list_elem_of_singleton.
      destruct (decide (item = x)) as [->|Hne].
      * rewrite lookup_insert_eq. simpl. tauto.
      * rewrite lookup_insert_ne by done. rewrite Hseen.
        intuition (subst; auto; congruence).
    + rewrite <- app_assoc. simpl. apply NoDup_app. split_and!; [done| |by apply NoDup_cons].
      done.
Qed.

Lemma removeDuplicates_of_NoDup (l : list string) : NoDup l -> removeDuplicates l = l.
Proof.
  intros Hnd. unfold removeDuplicates. rewrite removeDuplicates_loop_NoDup; [done| |done].
  intros x. rewrite lookup_empty, elem_of_nil. simpl. intuition congruence.
Qed.

(** Removing duplicates twice is removing them once, and the final
    collection is left as it is by another round of deduplication and
    sorting. *)
Theorem aggregate_idempotent (allIPs : list string) :
  removeDuplicates (removeDuplicates allIPs) = removeDuplicates allIPs
  /\ aggregate (aggregate allIPs) = aggregate allIPs.
Proof.
  split.
  - apply removeDuplicates_of_NoDup, removeDuplicates_NoDup.
  - assert (NoDup (aggregate allIPs)) as Hnd.
    { unfold aggregate. rewrite Strings_Permutation. apply removeDuplicates_NoDup. }
    unfold aggregate at 1. rewrite removeDuplicates_of_NoDup by done.
    apply (Sorted_unique str_le); [apply Strings_Sorted..|apply Strings_Permutation].
Qed.

(** C3: the final value is the accumulated addresses without duplicates
    (exact string equality), in ascending byte-wise lexicographic order,
    joined by single commas; this list is the only one with these
    properties; an empty collection gives the empty string; and the
    literals 10.0.0.2, 10.0.0.10, 10.0.0.1 give
    [10.0.0.1,10.0.0.10,10.0.0.2]. *)
Theorem C3_dedup_sort_join (allIPs : list string) :
  NoDup (aggregate allIPs)
  /\ (forall x, x ∈ aggregate allIPs <-> x ∈ allIPs)
  /\ Sorted str_le (aggregate allIPs)
  /\ (forall l, NoDup l -> (forall x, x ∈ l <-> x ∈ allIPs) -> Sorted str_le l ->
        l = aggregate allIPs)
  /\ joined allIPs = String.concat "," (aggregate allIPs)
  /\ (allIPs = [] -> joined allIPs = EmptyString)
  /\ (aggregate allIPs = [] -> joined allIPs = EmptyString)
  /\ joined ["10.0.0.2"; "10.0.0.10"; "10.0.0.1"] = "10.0.0.1,10.0.0.10,10.0.0.2".
Proof.
  assert (NoDup (aggregate allIPs)) as Hnd.
  { unfold aggregate. rewrite Strings_Permutation. apply removeDuplicates_NoDup. }
  assert (forall x, x ∈ aggregate allIPs <-> x ∈ allIPs) as Hin.
  { intros x. unfold aggregate.
    rewrite Strings_Permutation. apply removeDuplicates_elem_of. }
  assert (Sorted str_le (aggregate allIPs)) as Hs by apply Strings_Sorted.
  split_and!; [done | done | done | | done | | | ].
  - intros l Hl Hl_in Hl_sorted.
    apply (Sorted_unique str_le); [done..|].
    apply NoDup_Permutation; [done..|].
    intros x. by rewrite Hl_in, Hin.
  - by intros ->.
  - unfold joined. by intros ->.
  - by vm_compute.
Qed.

(** ** One turn of the allow-list loop *)

Lemma read_entries_skipped w text lines n ips :
  is_skipped text = true ->
  read_entries w (text :: lines) n ips = read_entries w lines (S n) ips.
Proof.
  unfold is_skipped. intros H. cbn [read_entries].
  destruct (String.eqb (strings.TrimSpace text) EmptyString); [done|].
  simpl in H. by rewrite H.
Qed.

Lemma read_entries_literal w text lines n ips :
  is_skipped text = false ->
  classify (strings.TrimSpace text) = LiteralAddress ->
  read_entries w (text :: lines) n ips
  = read_entries w lines (S n) (ips ++ [strings.TrimSpace text]).
Proof.
  unfold is_skipped, classify. intros H Hc. cbn [read_entries].
  apply orb_false_iff in H as [-> ->].
  destruct (isValidIPv4 (strings.TrimSpace text)); [done|].
  by destruct (isValidHostname (strings.TrimSpace text)).
Qed.

Lemma read_entries_invalid w text lines n ips p :
  is_skipped text = false ->
  classify (strings.TrimSpace text) = Invalid ->
  read_entries w (text :: lines) n ips p
  = Exit 1 (add_err (error_text (invalid_message (S n) (strings.TrimSpace text))) p).
Proof.
  unfold is_skipped, classify. intros H Hc. cbn [read_entries].
  apply orb_false_iff in H as [-> ->].
  destruct (isValidIPv4 (strings.TrimSpace text)); [done|].
  by destruct (isValidHostname (strings.TrimSpace text)).
Qed.

Lemma read_entries_domain w text lines n ips p :
  is_skipped text = false ->
  classify (strings.TrimSpace text) = DomainName ->
  read_entries w (text :: lines) n ips p
  = match dig w (calls p) (strings.TrimSpace text) with
    | inr e =>
        read_entries w lines (S n) ips
          (add_err (warn_text (failed_message (S n) (strings.TrimSpace text) e)) (add_call p))
    | inl output =>
        match parse_dig_output output with
        | [] =>
            read_entries w lines (S n) ips
              (add_err (warn_text (no_results_message (S n) (strings.TrimSpace text)))
                 (add_call p))
        | resolvedIPs => read_entries w lines (S n) (ips ++ resolvedIPs) (add_call p)
        end
    end.
Proof.
  unfold is_skipped, classify. intros H Hc. cbn [read_entries].
  apply orb_false_iff in H as [-> ->].
  destruct (isValidIPv4 (strings.TrimSpace text)); [done|].
  destruct (isValidHostname (strings.TrimSpace text)); [|done].
  unfold mbind, M_bind, resolveHostname.
  destruct (dig w (calls p) (strings.TrimSpace text)) as [output|e]; [|done].
  by destruct (parse_dig_output output).
Qed.

(** ** Classification of particular lines *)

(** C1, on the line [::ffff:1.2.3.4]: the IPv6 text of an IPv4-mapped
    address is an entry of the allow-list, is not of the 4-dotted-decimal
    shape, and yet is classified [LiteralAddress]; the loop takes it as
    an address.  (On lines without [':'] the literal addresses are the
    dotted quads, as the section on [parseIPv4Fields] shows.) *)
Theorem C1_mapped_ipv6_text_is_literal :
  is_skipped "::ffff:1.2.3.4" = false
  /\ strings.TrimSpace "::ffff:1.2.3.4" = "::ffff:1.2.3.4"
  /\ spec_dotted_quad "::ffff:1.2.3.4" = false
  /\ classify "::ffff:1.2.3.4" = LiteralAddress
  /\ (forall w lines n allIPs,
        read_entries w ("::ffff:1.2.3.4" :: lines) n allIPs
        = read_entries w lines (S n) (allIPs ++ ["::ffff:1.2.3.4"])).
Proof.
  split_and!; [reflexivity..|].
  intros w lines n allIPs. by rewrite read_entries_literal.
Qed.

(** C2, as the code has it: none of [01.2.3.4], [1.2.3.4.5] and [1.2.3] is
    a literal address, each one passes the hostname rules and so is
    classified [DomainName]; the loop hands it to the resolver and goes on
    with the next line instead of aborting. *)
Theorem C2_numeric_lines_are_hostnames :
  Forall (fun line =>
            isValidIPv4 line = false
            /\ isValidHostname line = true
            /\ classify line = DomainName
            /\ forall w lines n allIPs p, exists allIPs' p',
                 read_entries w (line :: lines) n allIPs p
                 = read_entries w lines (S n) allIPs' p'
                 /\ calls p' = S (calls p) /\ out p' = out p)
         ["01.2.3.4"; "1.2.3.4.5"; "1.2.3"].
Proof.
  assert (forall line,
             is_skipped line = false -> strings.TrimSpace line = line ->
             isValidIPv4 line = false -> isValidHostname line = true ->
             isValidIPv4 line = false
             /\ isValidHostname line = true
             /\ classify line = DomainName
             /\ forall w lines n allIPs p, exists allIPs' p',
                  read_entries w (line :: lines) n allIPs p
                  = read_entries w lines (S n) allIPs' p'
                  /\ calls p' = S (calls p) /\ out p' = out p) as Hline.
  { intros line Hskip Htrim H4 Hhost.
    assert (classify line = DomainName) as Hc by (unfold classify; by rewrite H4, Hhost).
    split_and!; [done..|].
    intros w lines n allIPs p.
    rewrite read_entries_domain by (done || by rewrite Htrim).
    destruct (dig w (calls p) _) as [output|e];
      [destruct (parse_dig_output output)|]; by eexists _, _. }
  repeat (apply List.Forall_cons; [by apply Hline|]). apply List.Forall_nil.
Qed.

(** None of the three lines is classified [Invalid]. *)
Lemma C2_counterexample :
  classify "01.2.3.4" <> Invalid
  /\ classify "1.2.3.4.5" <> Invalid
  /\ classify "1.2.3" <> Invalid.
Proof. by split_and!. Qed.

(** C4, on an output with the line [::ffff:10.0.0.1]: the IPv6 text of an
    IPv4-mapped address is not of the 4-dotted-decimal shape and yet is
    kept, next to the dotted address; the CNAME line is dropped. *)
Theorem C4_mapped_ipv6_answer_is_kept :
  spec_dotted_quad "::ffff:10.0.0.1" = false
  /\ parse_dig_output "cname.example.
::ffff:10.0.0.1
10.0.0.2
" = ["::ffff:10.0.0.1"; "10.0.0.2"].
Proof. split; vm_compute; reflexivity. Qed.

(** ** The whole allow-list loop *)

(** A stretch of lines without an invalid entry is read to its end; it
    writes nothing to standard output and only warnings to standard
    error. *)
Lemma read_entries_valid_prefix (w : World) (pre : list string) :
  Forall (fun t => ~ invalid_entry t) pre ->
  forall n ips p, exists ips' p' ws,
    (forall rest,
        read_entries w (pre ++ rest) n ips p = read_entries w rest (length pre + n) ips' p')
    /\ out p' = out p /\ err p' = err p ++ ws /\ Forall is_warning ws.
Proof.
  induction 1 as [|text pre Hok _ IH]; intros n ips p.
  - exists ips, p, []. split_and!; [done|done| |constructor]. by rewrite app_nil_r.
  - assert (forall ips1 p1 ws1,
               read_entries w (text :: pre) n ips p
               = read_entries w pre (S n) ips1 p1 ->
               (forall rest, read_entries w (text :: pre ++ rest) n ips p
                             = read_entries w (pre ++ rest) (S n) ips1 p1) ->
               out p1 = out p -> err p1 = err p ++ ws1 -> Forall is_warning ws1 ->
               exists ips' p' ws,
                 (forall rest, read_entries w ((text :: pre) ++ rest) n ips p
                               = read_entries w rest (length (text :: pre) + n) ips' p')
                 /\ out p' = out p /\ err p' = err p ++ ws /\ Forall is_warning ws) as Hstep.
    { intros ips1 p1 ws1 _ Hrest Hout Herr Hws.
      destruct (IH (S n) ips1 p1) as (ips' & p' & ws & Hrun & Hout' & Herr' & Hws').
      exists ips', p', (ws1 ++ ws). split_and!.
      - intros rest. rewrite <- app_comm_cons, Hrest, Hrun. f_equal. simpl. lia.
      - congruence.
      - rewrite Herr', Herr. by rewrite app_assoc.
      - by apply Forall_app. }
    destruct (is_skipped text) eqn:Hskip.
    { apply (Hstep ips p []); try done.
      - by rewrite read_entries_skipped.
      - intros rest. by rewrite read_entries_skipped.
      - by rewrite app_nil_r. }
    destruct (classify (strings.TrimSpace text)) eqn:Hc.
    + apply (Hstep (ips ++ [strings.TrimSpace text]) p []); try done.
      * by rewrite read_entries_literal.
      * intros rest. by rewrite read_entries_literal.
      * by rewrite app_nil_r.
    + pose proof (fun lines => read_entries_domain w text lines n ips p Hskip Hc) as Hd.
      destruct (dig w (calls p) (strings.TrimSpace text)) as [output|e].
      * destruct (parse_dig_output output) as [|ip resolved] eqn:Hparse.
        -- eapply (Hstep _ _ [_]); [apply Hd|intros; apply Hd|done|done|].
           repeat constructor. by eexists.
        -- eapply (Hstep _ _ []); [apply Hd|intros; apply Hd|done| |constructor].
           by rewrite app_nil_r.
      * eapply (Hstep _ _ [_]); [apply Hd|intros; apply Hd|done|done|].
        repeat constructor. by eexists.
    + destruct Hok. by split.
Qed.

(** Lines that are all blank or comments leave nothing behind. *)
Lemma read_entries_all_skipped (w : World) (lines : list string) (n : nat)
    (ips : list string) (p : Proc) :
  Forall (fun t => is_skipped t = true) lines ->
  read_entries w lines n ips p = Ret ips p.
Proof.
  intros H. revert n. induction H as [|text lines Hskip _ IH]; intros n; [done|].
  by rewrite read_entries_skipped.
Qed.

(** The loop writes nothing to standard output. *)
Lemma read_entries_out (w : World) (lines : list string) :
  forall n ips p,
    match read_entries w lines n ips p with
    | Ret _ p' => out p' = out p
    | Exit _ p' => out p' = out p
    end.
Proof.
  induction lines as [|text lines IH]; intros n ips p; [done|].
  destruct (is_skipped text) eqn:Hskip.
  { rewrite read_entries_skipped by done. apply IH. }
  destruct (classify (strings.TrimSpace text)) eqn:Hc.
  - rewrite read_entries_literal by done. apply IH.
  - rewrite read_entries_domain by done.
    destruct (dig w (calls p) (strings.TrimSpace text)) as [output|e].
    + destruct (parse_dig_output output);
        match goal with |- context [read_entries w lines ?n ?i ?q] =>
          specialize (IH n i q) end;
        by destruct (read_entries _ _ _ _ _).
    + match goal with |- context [read_entries w lines ?n ?i ?q] =>
          specialize (IH n i q) end.
      by destruct (read_entries _ _ _ _ _).
  - by rewrite read_entries_invalid.
Qed.

(** ** The configuration loop *)

Lemma emit_config_spec (lines : list string) (value : string) (p : Proc) :
  emit_config lines value p
  = Ret tt {| out := out p ++ map (config_line value) lines; err := err p; calls := calls p |}.
Proof.
  revert p. induction lines as [|line lines IH]; intros p; simpl.
  - rewrite app_nil_r. by destruct p.
  - unfold mbind, M_bind, config_line.
    destruct (strings.HasPrefix (strings.TrimSpace line) "AllowedIPs");
      cbn [Println print_out]; rewrite IH; simpl; by rewrite <- app_assoc.
Qed.

(** ** [main] *)

(** With one or two arguments and an allow-list that opens, [main] is the
    allow-list loop followed by the check of the scanner and the output
    stage. *)
Lemma main_body_reads (w : World) (prog cfg : string) (rest : list string) (file : File) :
  (length rest <= 1)%nat ->
  fs w cfg = Some file ->
  main_body w prog (cfg :: rest)
  = (allIPs ← read_entries w (bufio.scan file).1 0 [];
     match (bufio.scan file).2 with
     | Some e => errorExit ("Error reading config file: " +:+ e)
     | None => output w (default EmptyString (rest !! 0%nat)) allIPs
     end).
Proof.
  intros Hlen Hfs. unfold main_body.
  destruct rest as [|wg [|? ?]]; [| |simpl in Hlen; lia];
    cbn [length Nat.ltb Nat.leb orb lookup list_lookup default];
    simpl; rewrite Hfs; by destruct (bufio.scan file).
Qed.

(** C7: when some entry of the allow-list is invalid, the run stops at the
    first such line: exit code 1, nothing on standard output, and on
    standard error the one ERROR diagnostic with the 1-based number and
    the text of that line, after the warnings of earlier hostnames. *)
Theorem C7_invalid_entry_aborts (w : World) (prog cfg : string) (rest : list string)
    (file : File) :
  (length rest <= 1)%nat ->
  fs w cfg = Some file ->
  Exists invalid_entry (bufio.scan file).1 ->
  exists (i : nat) (text : string) (warnings : list string),
    (bufio.scan file).1 !! i = Some text
    /\ invalid_entry text
    /\ (forall j t, (j < i)%nat -> (bufio.scan file).1 !! j = Some t -> ~ invalid_entry t)
    /\ Forall is_warning warnings
    /\ main w prog (cfg :: rest)
       = {| stdout := [];
            stderr := warnings ++
              [error_text ("Line " +:+ itoa (S i)
                           +:+ ": Invalid entry (not an IPv4 or hostname): "
                           +:+ strings.TrimSpace text)];
            exit_code := 1 |}.
Proof.
  intros Hlen Hfs Hex.
  apply Exists_exists in Hex as (t0 & Hin & Hinv).
  destruct (list_find_elem_of invalid_entry _ _ Hin Hinv) as [[i text] Hfind].
  apply list_find_Some in Hfind as (Hi & Htext & Hfirst).
  destruct (read_entries_valid_prefix w (take i (bufio.scan file).1)) with
    (n := 0%nat) (ips := @nil string) (p := start)
    as (ips' & p' & ws & Hrun & Hout & Herr & Hws).
  { apply Forall_forall. intros t Ht.
    apply list_elem_of_lookup in Ht as [j Hj].
    pose proof (lookup_lt_Some _ _ _ Hj) as Hlt. rewrite length_take in Hlt.
    rewrite lookup_take_lt in Hj by lia. eapply Hfirst; [done|lia]. }
  exists i, text, ws. split_and!; try done.
  { intros j t Hj Ht. by eapply Hfirst. }
  unfold main. rewrite main_body_reads with (file := file) by done.
  unfold mbind at 1, M_bind at 1.
  rewrite <- (take_drop_middle _ _ _ Hi) at 1. rewrite Hrun.
  destruct Htext as [Hskip Hc].
  rewrite read_entries_invalid by done.
  rewrite length_take_le by (apply lookup_lt_Some in Hi; lia).
  rewrite Nat.add_0_r. simpl. by rewrite Hout, Herr.
Qed.


(** In list mode, after an allow-list loop that returns, the scanner
    having ended without error. *)
Lemma main_list_mode (w : World) (prog cfg : string) (file : File)
    (allIPs : list string) (p : Proc) :
  fs w cfg = Some file ->
  (bufio.scan file).2 = None ->
  read_entries w (bufio.scan file).1 0 [] start = Ret allIPs p ->
  main w prog [cfg]
  = {| stdout := if (0 <? length (aggregate allIPs))%nat
                 then [joined allIPs +:+ newline] else [];
       stderr := err p; exit_code := 0 |}.
Proof.
  intros Hfs Herr Hrun. unfold main.
  rewrite main_body_reads with (file := file) by (done || simpl; lia).
  unfold mbind, M_bind. rewrite Hrun, Herr.
  pose proof (read_entries_out w (bufio.scan file).1 0 [] start) as Hout.
  rewrite Hrun in Hout. simpl in Hout.
  unfold output. simpl.
  destruct (0 <? length (aggregate allIPs))%nat; simpl; by rewrite Hout.
Qed.

(** C9: in list mode a non-empty final collection is printed as the joined
    string and a newline; an empty one prints nothing; the exit code is 0
    in both cases.  A file of comments and blank lines only prints
    nothing at all and succeeds. *)
Theorem C9_list_mode_output (w : World) (prog cfg : string) (file : File)
    (allIPs : list string) (p : Proc) :
  fs w cfg = Some file ->
  (bufio.scan file).2 = None ->
  read_entries w (bufio.scan file).1 0 [] start = Ret allIPs p ->
  (aggregate allIPs <> [] ->
     main w prog [cfg]
     = {| stdout := [joined allIPs +:+ newline]; stderr := err p; exit_code := 0 |})
  /\ (aggregate allIPs = [] ->
      main w prog [cfg] = {| stdout := []; stderr := err p; exit_code := 0 |})
  /\ (Forall (fun t => is_skipped t = true) (bufio.scan file).1 ->
      main w prog [cfg] = {| stdout := []; stderr := []; exit_code := 0 |}).
Proof.
  intros Hfs Herr Hrun.
  rewrite (main_list_mode w prog cfg file allIPs p) by done.
  split_and!.
  - intros Hne. by destruct (aggregate allIPs).
  - by intros ->.
  - intros Hall. rewrite read_entries_all_skipped in Hrun by done.
    by injection Hrun as <- <-.
Qed.

(** In substitution mode, after an allow-list loop that returns: standard
    output is one write per line of the template. *)
Lemma main_substitution (w : World) (prog cfg wg : string) (file wgFile : File)
    (allIPs : list string) (p : Proc) :
  wg <> EmptyString ->
  fs w cfg = Some file ->
  (bufio.scan file).2 = None ->
  read_entries w (bufio.scan file).1 0 [] start = Ret allIPs p ->
  fs w wg = Some wgFile ->
  stdout (main w prog [cfg; wg])
  = map (config_line (joined allIPs)) (bufio.scan wgFile).1.
Proof.
  intros Hwg Hfs Herr Hrun Hfs'. unfold main.
  rewrite main_body_reads with (file := file) by (done || simpl; lia).
  unfold mbind at 1, M_bind at 1. rewrite Hrun, Herr.
  pose proof (read_entries_out w (bufio.scan file).1 0 [] start) as Hout.
  rewrite Hrun in Hout. simpl in Hout.
  change (default EmptyString ([wg] !! 0%nat)) with wg. unfold output.
  apply String.eqb_neq in Hwg. rewrite Hwg, Hfs'.
  destruct (bufio.scan wgFile) as [wgLines wg_err].
  unfold mbind, M_bind. rewrite emit_config_spec, Hout.
  by destruct wg_err.
Qed.

(** C5: in substitution mode every line of the template whose trimmed
    form starts with [AllowedIPs] is written as [AllowedIPs = <joined>],
    whichever its position and however many such lines there are;
    [AllowedIPsX = 1.2.3.4] is such a line. *)
Theorem C5_every_matching_line_is_replaced (w : World) (prog cfg wg : string)
    (file wgFile : File) (allIPs : list string) (p : Proc) (i : nat) (line : string) :
  wg <> EmptyString ->
  fs w cfg = Some file ->
  (bufio.scan file).2 = None ->
  read_entries w (bufio.scan file).1 0 [] start = Ret allIPs p ->
  fs w wg = Some wgFile ->
  (bufio.scan wgFile).1 !! i = Some line ->
  strings.HasPrefix (strings.TrimSpace line) "AllowedIPs" = true ->
  stdout (main w prog [cfg; wg]) !! i
  = Some ("AllowedIPs = " +:+ joined allIPs +:+ newline)
  /\ strings.HasPrefix (strings.TrimSpace "AllowedIPsX = 1.2.3.4") "AllowedIPs" = true.
Proof.
  intros Hwg Hfs Herr Hrun Hfs' Hline Hprefix. split; [|done].
  rewrite (main_substitution w prog cfg wg file wgFile allIPs p) by done.
  rewrite list_lookup_fmap, Hline. simpl. unfold config_line. by rewrite Hprefix.
Qed.


(** C10: in substitution mode with an empty final collection a matching
    line is still replaced, by [AllowedIPs = ] and nothing after the
    space. *)
Theorem C10_empty_collection_still_substitutes (w : World) (prog cfg wg : string)
    (file wgFile : File) (allIPs : list string) (p : Proc) (i : nat) (line : string) :
  wg <> EmptyString ->
  fs w cfg = Some file ->
  (bufio.scan file).2 = None ->
  read_entries w (bufio.scan file).1 0 [] start = Ret allIPs p ->
  fs w wg = Some wgFile ->
  aggregate allIPs = [] ->
  (bufio.scan wgFile).1 !! i = Some line ->
  strings.HasPrefix (strings.TrimSpace line) "AllowedIPs" = true ->
  stdout (main w prog [cfg; wg]) !! i = Some ("AllowedIPs = " +:+ newline).
Proof.
  intros Hwg Hfs Herr Hrun Hfs' Hempty Hline Hprefix.
  rewrite (main_substitution w prog cfg wg file wgFile allIPs p) by done.
  rewrite list_lookup_fmap, Hline. simpl. unfold config_line, joined.
  by rewrite Hprefix, Hempty.
Qed.

(** ** The first occurrences that [removeDuplicates] keeps *)

Lemma removeDuplicates_loop_filter (slice : list string) :
  forall (seen : gmap string bool) (result : list string),
    (forall x, default false (seen !! x) = true <-> x ∈ result) ->
    removeDuplicates_loop seen slice result
    = result ++ filter (fun y => y ∉ result) (removeDuplicates slice).
Proof.
  induction slice as [|item slice IH]; intros seen result Hseen.
  { simpl. by rewrite app_nil_r. }
  assert (removeDuplicates (item :: slice)
          = item :: filter (fun y => y ∉ [item]) (removeDuplicates slice)) as Hhead.
  { unfold removeDuplicates at 1. simpl. rewrite lookup_empty. simpl.
    rewrite (IH _ [item]); [done|].
    intros x. rewrite list_elem_of_singleton.
    destruct (decide (item = x)) as [->|Hne].
    - rewrite lookup_insert_eq. simpl. tauto.
    - rewrite lookup_insert_ne by done. rewrite lookup_empty. simpl.
      intuition congruence. }
  rewrite Hhead. simpl.
  destruct (default false (seen !! item)) eqn:Hitem; simpl.
  - apply Hseen in Hitem. rewrite (IH _ _ Hseen).
    rewrite filter_cons_False by tauto. rewrite list_filter_filter.
    f_equal. apply list_filter_iff. intros y. rewrite list_elem_of_singleton.
    intuition congruence.
  - assert (item ∉ result) as Hnotin.
    { intros Hin. apply Hseen in Hin. congruence. }
    rewrite (IH (<[item := true]> seen) (result ++ [item])).
    + rewrite filter_cons_True by done. rewrite list_filter_filter, <- app_assoc.
      simpl. do 2 f_equal. apply list_filter_iff. intros y.
      rewrite elem_of_app. tauto.
    + intros x. rewrite elem_of_app, list_elem_of_singleton.
      destruct (decide (item = x)) as [->|Hne].
      * rewrite lookup_insert_eq. simpl. tauto.
      * rewrite lookup_insert_ne by done. rewrite Hseen.
        intuition (subst; auto; congruence).
Qed.

(** [removeDuplicates] keeps the first occurrence of every string, in the
    order of the first occurrences: nothing of the empty slice; the head
    of a slice and then what is kept of the tail, without the head.  What
    it returns is picked from the slice in its order. *)
Theorem removeDuplicates_first_occurrence (item : string) (slice : list string) :
  removeDuplicates [] = []
  /\ removeDuplicates (item :: slice)
     = item :: filter (fun y => y <> item) (removeDuplicates slice)
  /\ sublist (removeDuplicates slice) slice.
Proof.
  assert (forall x l, removeDuplicates (x :: l)
                      = x :: filter (fun y => y <> x) (removeDuplicates l)) as Hcons.
  { intros x l. unfold removeDuplicates at 1. simpl. rewrite lookup_empty. simpl.
    rewrite (removeDuplicates_loop_filter _ _ [x]).
    - simpl. f_equal. apply list_filter_iff. intros y.
      by rewrite list_elem_of_singleton.
    - intros y. rewrite list_elem_of_singleton.
      destruct (decide (x = y)) as [->|Hne].
      + rewrite lookup_insert_eq. simpl. tauto.
      + rewrite lookup_insert_ne by done. rewrite lookup_empty. simpl.
        intuition congruence. }
  split_and!; [done|apply Hcons|].
  induction slice as [|x l IH]; [done|].
  rewrite Hcons. apply sublist_skip. etrans; [apply sublist_filter|done].
Qed.

(** ** The bytes of an address and of an entry *)

Lemma all_bytes_app (p : ascii -> bool) (a b : string) :
  all_bytes p (a +:+ b) = all_bytes p a && all_bytes p b.
Proof.
  induction a as [|c a IH]; [by rewrite str_app_nil_l|].
  rewrite str_app_cons. simpl. by rewrite IH, andb_assoc.
Qed.

Lemma digits_dots_address (s : string) :
  digits_dots s = true -> all_bytes address_byte s = true.
Proof.
  induction s as [|c s IH]; [done|]. simpl.
  rewrite !andb_true_iff. intros [Hc Hs]. split; [|by apply IH].
  unfold address_byte. destruct (is_digit c); [done|]. simpl in Hc. rewrite Hc.
  by rewrite orb_true_r.
Qed.

Lemma parseIPv4Fields_bytes (s : string) (fields : list N) :
  net.parseIPv4Fields s = Some fields -> all_bytes address_byte s = true.
Proof.
  intros H. apply digits_dots_address.
  apply spec_dotted_quad_chars, parseIPv4Fields_dotted_quad. by eexists.
Qed.

Lemma hex_digit_address (c : ascii) (d : N) :
  net.hex_digit c = Some d -> address_byte c = true.
Proof.
  unfold net.hex_digit, address_byte, is_digit.
  destruct (byte_in 48 57 c); [done|].
  destruct (byte_in 97 102 c); [done|].
  by destruct (byte_in 65 70 c).
Qed.

Lemma hex_group_bytes (s : string) :
  forall off acc off' acc' s',
    net.hex_group s off acc = Some (off', acc', s') ->
    exists pre, s = pre +:+ s' /\ all_bytes address_byte pre = true.
Proof.
  induction s as [|c s IH]; intros off acc off' acc' s'; simpl.
  { intros [= <- <- <-]. by exists EmptyString. }
  destruct (net.hex_digit c) as [d|] eqn:Hd.
  - destruct (3 <? off)%nat; [done|].
    destruct (65535 <? _); [done|]. intros H.
    destruct (IH _ _ _ _ _ H) as (pre & -> & Hpre).
    exists (String c pre). rewrite str_app_cons. split; [done|].
    simpl. by rewrite (hex_digit_address c d), Hpre.
  - intros [= <- <- <-]. by exists EmptyString.
Qed.

Lemma parseIPv6_loop_bytes (fuel : nat) :
  forall s i ip ellipsis st,
    net.parseIPv6_loop fuel s i ip ellipsis = Some st ->
    exists pre, s = pre +:+ net.v6_s st /\ all_bytes address_byte pre = true.
Proof.
  induction fuel as [|fuel IH]; intros s i ip ellipsis st; simpl.
  { destruct (i <? 16)%nat; [done|]. simpl. intros [= <-]. by exists EmptyString. }
  destruct (i <? 16)%nat; simpl; [|intros [= <-]; by exists EmptyString].
  destruct (net.hex_group s 0 0) as [[[off acc] s']|] eqn:Hgroup; [|done].
  destruct (hex_group_bytes _ _ _ _ _ _ Hgroup) as (pre & Hs & Hpre).
  destruct (off =? 0)%nat; [done|].
  destruct s' as [|c s1].
  { intros [= <-]. by exists pre. }
  destruct (Ascii.eqb c dot) eqn:Hdot.
  { destruct ((ellipsis <? 0)%Z && negb (i =? 12)%nat); [done|].
    destruct (16 <? i + 4)%nat; [done|].
    destruct (net.parseIPv4Fields s) as [fields|] eqn:Hfields; [|done].
    intros [= <-]. exists s. simpl. rewrite str_app_nil_r.
    split; [done|]. by apply (parseIPv4Fields_bytes s fields). }
  destruct (Ascii.eqb c colon) eqn:Hcolon; simpl; [|done].
  apply Ascii.eqb_eq in Hcolon as ->.
  destruct s1 as [|c1 s2]; [done|].
  destruct (Ascii.eqb c1 colon) eqn:Hc1.
  - apply Ascii.eqb_eq in Hc1 as ->.
    destruct (0 <=? ellipsis)%Z; [done|].
    destruct s2 as [|c2 s3].
    + intros [= <-]. exists s. simpl. rewrite str_app_nil_r. split; [done|].
      rewrite Hs, all_bytes_app, Hpre. done.
    + intros H. destruct (IH _ _ _ _ _ H) as (pre2 & Hs2 & Hpre2).
      exists (pre +:+ String colon (String colon pre2)).
      rewrite Hs, Hs2, str_app_assoc, !str_app_cons. split; [done|].
      rewrite all_bytes_app, Hpre. simpl. by rewrite Hpre2.
  - intros H. destruct (IH _ _ _ _ _ H) as (pre1 & Hs1 & Hpre1).
    exists (pre +:+ String colon pre1).
    rewrite Hs, Hs1, str_app_assoc, !str_app_cons. split; [done|].
    rewrite all_bytes_app, Hpre. simpl. by rewrite Hpre1.
Qed.

Lemma cut_zone_none (s a : string) : net.cut_zone s = (a, None) -> a = s.
Proof.
  revert a. induction s as [|c s IH]; intros a; simpl.
  { by intros [= <-]. }
  destruct (is_byte 37 c); [done|].
  destruct (net.cut_zone s) as [a' z]. intros [= <- ->]. by rewrite (IH a').
Qed.

Lemma parseIPv6_bytes (input : string) (ip : list N) :
  net.parseIPv6 input = Some (ip, EmptyString) -> all_bytes address_byte input = true.
Proof.
  unfold net.parseIPv6.
  destruct (net.cut_zone input) as [s z] eqn:Hcut.
  destruct z as [[|c zone]|]; [done| |].
  { repeat case_match; done. }
  apply cut_zone_none in Hcut as ->. simpl.
  assert (forall s' e only,
            (exists pre, input = pre +:+ s' /\ all_bytes address_byte pre = true) ->
            (only = true -> s' = EmptyString) ->
            (if only then Some (replicate 16 0, EmptyString)
             else match net.parseIPv6_loop 8 s' 0 (replicate 16 0) e with
                  | None => None
                  | Some (net.V6 s i ip ellipsis) =>
                      match s with
                      | String _ _ => None
                      | EmptyString =>
                          if (i <? 16)%nat then
                            if (ellipsis <? 0)%Z then None
                            else Some (take (Z.to_nat ellipsis) ip ++ replicate (16 - i) 0
                                         ++ take (i - Z.to_nat ellipsis)
                                              (drop (Z.to_nat ellipsis) ip), EmptyString)
                          else if (0 <=? ellipsis)%Z then None
                          else Some (ip, EmptyString)
                      end
                  end) = Some (ip, EmptyString) ->
            all_bytes address_byte input = true) as Hloop.
  { intros s' e only (pre & -> & Hpre) Honly.
    destruct only.
    - intros _. rewrite (Honly eq_refl), str_app_nil_r. done.
    - destruct (net.parseIPv6_loop 8 s' 0 (replicate 16 0) e) as [[s i ip' e']|] eqn:Hrun;
        [|done].
      destruct (parseIPv6_loop_bytes _ _ _ _ _ _ Hrun) as (pre' & -> & Hpre').
      simpl. destruct s; [|done]. intros _.
      by rewrite all_bytes_app, Hpre, !str_app_nil_r, Hpre'. }
  destruct input as [|c0 [|c1 s2]].
  - apply (Hloop EmptyString (-1)%Z false); [by exists EmptyString|done].
  - apply (Hloop (String c0 EmptyString) (-1)%Z false); [by exists EmptyString|done].
  - destruct (Ascii.eqb c0 colon && Ascii.eqb c1 colon) eqn:Hcc.
    + apply andb_true_iff in Hcc as [->%Ascii.eqb_eq ->%Ascii.eqb_eq].
      apply (Hloop s2 0%Z (match s2 with EmptyString => true | _ => false end)).
      * by exists (String colon (String colon EmptyString)).
      * by destruct s2.
    + apply (Hloop (String c0 (String c1 s2)) (-1)%Z false); [by exists EmptyString|done].
Qed.

Lemma ParseAddr_scan_bytes (whole s : string) (ip : list N) :
  net.ParseAddr_scan whole s = Some (ip, EmptyString) ->
  all_bytes address_byte whole = true.
Proof.
  induction s as [|c s IH]; [done|]. simpl.
  destruct (Ascii.eqb c dot).
  { unfold net.parseIPv4.
    destruct (net.parseIPv4Fields whole) as [fields|] eqn:Hf; [|done].
    intros _. by apply (parseIPv4Fields_bytes whole fields). }
  destruct (Ascii.eqb c colon); [apply parseIPv6_bytes|].
  by destruct (is_byte 37 c).
Qed.

(** What [net.ParseIP] accepts as an address with a 4-byte form is made
    of hexadecimal digits, dots and colons. *)
Lemma has_ipv4_form_bytes (s : string) :
  has_ipv4_form s = true -> all_bytes address_byte s = true.
Proof.
  unfold has_ipv4_form, net.ParseIP, net.ParseAddr.
  destruct (net.ParseAddr_scan s s) as [[ip [|c zone]]|] eqn:Hscan; [|done..].
  intros _. by apply (ParseAddr_scan_bytes s s ip).
Qed.

Lemma address_byte_not_comma (s : string) :
  all_bytes address_byte s = true -> all_bytes (fun c => negb (Ascii.eqb c comma)) s = true.
Proof.
  induction s as [|c s IH]; [done|]. simpl.
  rewrite !andb_true_iff. intros [Hc Hs]. split; [|by apply IH].
  apply negb_true_iff, Ascii.eqb_neq. intros ->. done.
Qed.

Lemma all_bytes_impl (p q : ascii -> bool) (s : string) :
  (forall c, p c = true -> q c = true) -> all_bytes p s = true -> all_bytes q s = true.
Proof.
  intros Hpq. induction s as [|c s IH]; [done|]. simpl.
  rewrite !andb_true_iff. intros [Hc Hs]. split; [by apply Hpq|by apply IH].
Qed.

Lemma Split_all_bytes (p : ascii -> bool) (s : string) (sep : ascii) :
  forallb (all_bytes p) (strings.Split s sep) = true ->
  all_bytes (fun c => p c || Ascii.eqb c sep) s = true.
Proof.
  induction s as [|c s IH]; [done|]. simpl.
  destruct (Ascii.eqb c sep) eqn:Hc; simpl.
  - rewrite orb_true_r. apply IH.
  - destruct (Split_nonempty s sep) as (seg & segs & Hs). rewrite Hs in *. simpl.
    rewrite orb_false_r, <- andb_assoc, !andb_true_iff. intros (-> & H1 & H2).
    split; [done|]. apply IH. simpl. by rewrite H1, H2.
Qed.

Lemma label_tail_bytes (s : string) :
  label_tail s = true -> all_bytes is_alnum_hyphen s = true.
Proof.
  induction s as [|c s IH]; [done|]. simpl. destruct s as [|c' s].
  - intros Hc. unfold is_alnum_hyphen. by rewrite Hc.
  - rewrite andb_true_iff. intros [-> Hs]. by rewrite IH.
Qed.

Lemma spec_label_bytes (label : string) :
  spec_label label = true -> all_bytes is_alnum_hyphen label = true.
Proof.
  destruct label as [|c rest]; [done|]. simpl.
  rewrite andb_true_iff. intros [Hc Ht].
  unfold is_alnum_hyphen at 1. rewrite Hc. by apply label_tail_bytes.
Qed.

Lemma isValidHostname_bytes (s : string) :
  isValidHostname s = true -> all_bytes entry_byte s = true.
Proof.
  unfold isValidHostname.
  destruct (_ || _); [done|]. destruct (negb _); [done|].
  rewrite labels_ok_spec. intros Hl.
  apply (all_bytes_impl (fun c => is_alnum_hyphen c || Ascii.eqb c dot)).
  { intros c. unfold entry_byte, is_alnum_hyphen.
    destruct (is_alnum c), (Ascii.eqb c dot), (is_byte 45 c); done. }
  apply Split_all_bytes.
  apply forallb_forall. intros label Hin.
  apply spec_label_bytes.
  rewrite forallb_forall in Hl. specialize (Hl label Hin).
  by apply andb_true_iff in Hl as [_ ?].
Qed.

Lemma isValidIPv4_bytes (s : string) :
  isValidIPv4 s = true -> all_bytes entry_byte s = true.
Proof.
  rewrite isValidIPv4_unfold, !andb_true_iff. intros [[Hform _] _].
  apply (all_bytes_impl address_byte); [|by apply has_ipv4_form_bytes].
  intros c. unfold address_byte, entry_byte, is_alnum, is_lower, is_upper, is_digit, byte_in.
  rewrite !orb_true_iff, !andb_true_iff, !N.leb_le. intuition lia.
Qed.

(** An entry with a byte that is not a letter, a digit, ['.'], ['-'] or
    [':'] is classified [Invalid]: a slash, an underscore, a blank inside
    the line. *)
Theorem foreign_byte_is_invalid (line : string) :
  all_bytes entry_byte line = false -> classify line = Invalid.
Proof.
  intros Hbytes. unfold classify.
  destruct (isValidIPv4 line) eqn:H4.
  { apply isValidIPv4_bytes in H4. congruence. }
  destruct (isValidHostname line) eqn:Hh; [|done].
  apply isValidHostname_bytes in Hh. congruence.
Qed.

(** ** Dotted quads and the hostname test *)

Lemma all_digits_label_tail (s : string) : all_digits s = true -> label_tail s = true.
Proof.
  induction s as [|c s IH]; [done|]. simpl.
  rewrite andb_true_iff. intros [Hc Hs].
  assert (is_alnum c = true) as Ha by (unfold is_alnum; by rewrite Hc, orb_true_r).
  destruct s as [|c' s]; [done|].
  unfold is_alnum_hyphen. rewrite Ha. by apply IH.
Qed.

Lemma digit_val (c : ascii) : is_digit c = true -> 48 <= byte_val c <= 57.
Proof.
  unfold is_digit, byte_in. rewrite andb_true_iff, !N.leb_le. lia.
Qed.

Lemma spec_segment_label (seg : string) :
  spec_segment seg = true ->
  (1 <= String.length seg <= 3)%nat /\ spec_label seg = true.
Proof.
  intros H. apply spec_segment_iff in H as (Hne & Hall & Hval & Hlz).
  destruct seg as [|c1 seg]; [done|].
  simpl in Hall. apply andb_true_iff in Hall as [H1 Hall].
  split.
  - destruct seg as [|c2 [|c3 [|c4 seg]]]; simpl; try lia.
    exfalso. simpl in Hlz, Hall.
    apply andb_true_iff in Hall as [H2 Hall].
    apply andb_true_iff in Hall as [H3 Hall].
    apply andb_true_iff in Hall as [H4 Hall].
    apply digit_val in H1, H2, H3, H4.
    unfold is_byte in Hlz. apply N.eqb_neq in Hlz.
    unfold decimal_value in Hval. simpl in Hval.
    pose proof (decimal_from_ge
                  ((((0 * 10 + (byte_val c1 - 48)) * 10 + (byte_val c2 - 48)) * 10
                    + (byte_val c3 - 48)) * 10 + (byte_val c4 - 48)) seg).
    lia.
  - simpl. rewrite all_digits_label_tail by done.
    unfold is_alnum. by rewrite H1, orb_true_r.
Qed.

Lemma Split_length (s : string) (sep : ascii) :
  S (String.length s)
  = foldr (fun piece n => (S (String.length piece) + n)%nat) 0%nat (strings.Split s sep).
Proof.
  induction s as [|c s IH]; [done|]. simpl.
  destruct (Ascii.eqb c sep); simpl; [by rewrite IH|].
  destruct (Split_nonempty s sep) as (seg & segs & Hs). rewrite Hs in *. simpl in *.
  lia.
Qed.

(** Every text without [':'] that [isValidIPv4] accepts passes the
    hostname test as well: it is the order of the two tests in [main]
    that makes it a literal address. *)
Theorem dotted_quad_is_hostname (s : string) :
  isValidIPv4 s = true -> colon_free s = true ->
  isValidHostname s = true /\ classify s = LiteralAddress.
Proof.
  intros H4 Hfree. split; [|unfold classify; by rewrite H4].
  assert (spec_dotted_quad s = true) as Hq.
  { apply has_ipv4_form_dotted_quad. split; [|done].
    rewrite isValidIPv4_unfold, !andb_true_iff in H4. tauto. }
  pose proof (Split_length s dot) as Hlen.
  pose proof (Split_has_dot s) as Hdot.
  unfold spec_dotted_quad in Hq. unfold isValidHostname.
  rewrite Contains_dot, labels_ok_spec.
  destruct (strings.Split s dot) as [|a [|b [|c [|d [|? ?]]]]]; try done.
  rewrite !andb_true_iff in Hq. destruct Hq as [[[Ha Hb] Hc] Hd].
  apply spec_segment_label in Ha as [Ha1 Ha2], Hb as [Hb1 Hb2],
      Hc as [Hc1 Hc2], Hd as [Hd1 Hd2].
  simpl in Hlen. rewrite Hdot by (simpl; lia).
  assert ((String.length s =? 0)%nat = false) as -> by (apply Nat.eqb_neq; lia).
  assert ((253 <? String.length s)%nat = false) as -> by (apply Nat.ltb_ge; lia).
  cbn [orb negb forallb]. rewrite Ha2, Hb2, Hc2, Hd2.
  repeat match goal with
         | |- context [(1 <=? String.length ?x)%nat] =>
             replace (1 <=? String.length x)%nat with true
               by (symmetry; apply Nat.leb_le; lia)
         | |- context [(String.length ?x <=? 63)%nat] =>
             replace (String.length x <=? 63)%nat with true
               by (symmetry; apply Nat.leb_le; lia)
         end.
  done.
Qed.

(** ** [strings.Split] after [strings.Join] *)

Lemma Split_free (s : string) (sep : ascii) :
  all_bytes (fun c => negb (Ascii.eqb c sep)) s = true -> strings.Split s sep = [s].
Proof.
  induction s as [|c s IH]; [done|]. simpl.
  rewrite andb_true_iff, negb_true_iff. intros [-> Hs]. by rewrite (IH Hs).
Qed.

Lemma Split_app (a b : string) (sep : ascii) :
  all_bytes (fun c => negb (Ascii.eqb c sep)) a = true ->
  strings.Split (a +:+ String sep b) sep = a :: strings.Split b sep.
Proof.
  induction a as [|c a IH].
  - intros _. rewrite str_app_nil_l. simpl. by rewrite Ascii.eqb_refl.
  - rewrite str_app_cons. simpl.
    rewrite andb_true_iff, negb_true_iff. intros [Hc Ha]. by rewrite Hc, (IH Ha).
Qed.

Lemma Split_Join (l : list string) (sep : ascii) :
  l <> [] ->
  Forall (fun a => all_bytes (fun c => negb (Ascii.eqb c sep)) a = true) l ->
  strings.Split (strings.Join l (String sep EmptyString)) sep = l.
Proof.
  unfold strings.Join.
  induction l as [|a l IH]; [done|]. intros _ Hl.
  apply Forall_cons in Hl as [Ha Hl].
  destruct l as [|b l].
  - simpl. by apply Split_free.
  - change (String.concat (String sep EmptyString) (a :: b :: l))
      with (a +:+ (String sep EmptyString
                   +:+ String.concat (String sep EmptyString) (b :: l))).
    rewrite str_app_cons, str_app_nil_l, Split_app by done.
    by rewrite IH.
Qed.

(** ** [strings.TrimSpace] on a trimmed text *)

Lemma TrimLeft_fixed (t : string) : front_space t = false -> strings.TrimLeft t = t.
Proof.
  destruct t as [|c1 [|c2 [|c3 t]]]; simpl; [done|..].
  - rewrite orb_false_r. by intros ->.
  - rewrite orb_false_r. intros [-> ->]%orb_false_iff. done.
  - intros [-> [-> ->]%orb_false_iff]%orb_false_iff. done.
Qed.

Lemma TrimLeft_cons (c1 : ascii) (s1 : string) :
  strings.TrimLeft (String c1 s1)
  = if strings.ascii_space c1 then strings.TrimLeft s1
    else match s1 with
         | String c2 s2 =>
             if is_byte 194 c1 && strings.space_C2 c2 then strings.TrimLeft s2
             else match s2 with
                  | String c3 s3 =>
                      if strings.space3 c1 c2 c3 then strings.TrimLeft s3
                      else String c1 s1
                  | EmptyString => String c1 s1
                  end
         | EmptyString => String c1 s1
         end.
Proof. reflexivity. Qed.

Lemma TrimLeft_rev_cons (c1 : ascii) (r1 : list ascii) :
  strings.TrimLeft_rev (c1 :: r1)
  = if strings.ascii_space c1 then strings.TrimLeft_rev r1
    else match r1 with
         | c2 :: r2 =>
             if is_byte 194 c2 && strings.space_C2 c1 then strings.TrimLeft_rev r2
             else match r2 with
                  | c3 :: r3 =>
                      if strings.space3 c3 c2 c1 then strings.TrimLeft_rev r3
                      else c1 :: r1
                  | [] => c1 :: r1
                  end
         | [] => c1 :: r1
         end.
Proof. reflexivity. Qed.

Lemma TrimLeft_front_fuel (n : nat) :
  forall s, (String.length s < n)%nat -> front_space (strings.TrimLeft s) = false.
Proof.
  induction n as [|n IH]; intros s Hn; [lia|].
  destruct s as [|c1 [|c2 [|c3 s]]]; [done|..]; rewrite TrimLeft_cons; simpl in Hn.
  - destruct (strings.ascii_space c1) eqn:H1; [done|]. simpl. by rewrite H1.
  - destruct (strings.ascii_space c1) eqn:H1; [apply IH; simpl; lia|].
    destruct (is_byte 194 c1 && strings.space_C2 c2) eqn:H2; [done|].
    simpl. by rewrite H1, H2.
  - destruct (strings.ascii_space c1) eqn:H1; [apply IH; simpl; lia|].
    destruct (is_byte 194 c1 && strings.space_C2 c2) eqn:H2; [apply IH; simpl; lia|].
    destruct (strings.space3 c1 c2 c3) eqn:H3; [apply IH; simpl; lia|].
    simpl. by rewrite H1, H2, H3.
Qed.

Lemma TrimLeft_front (s : string) : front_space (strings.TrimLeft s) = false.
Proof. apply (TrimLeft_front_fuel (S (String.length s))). lia. Qed.

Lemma front_space_prefix (u v : string) :
  front_space (u +:+ v) = false -> front_space u = false.
Proof.
  destruct u as [|c1 [|c2 [|c3 u]]]; [done|..];
    rewrite ?str_app_cons, ?str_app_nil_l.
  - simpl. intros [-> _]%orb_false_iff. done.
  - simpl. intros [-> [-> _]%orb_false_iff]%orb_false_iff. done.
  - done.
Qed.

Lemma TrimLeft_rev_fuel (n : nat) :
  forall r, (length r < n)%nat ->
    strings.TrimLeft_rev (strings.TrimLeft_rev r) = strings.TrimLeft_rev r
    /\ exists pre, r = pre ++ strings.TrimLeft_rev r.
Proof.
  induction n as [|n IH]; intros r Hn; [lia|].
  assert (forall pre r', (length r' < n)%nat -> r = pre ++ r' ->
            strings.TrimLeft_rev (strings.TrimLeft_rev r') = strings.TrimLeft_rev r'
            /\ exists pre, r = pre ++ strings.TrimLeft_rev r') as Hstep.
  { intros pre r' Hlen ->. destruct (IH r' Hlen) as [H1 [pre' H2]]. split; [done|].
    exists (pre ++ pre'). by rewrite <- app_assoc, <- H2. }
  destruct r as [|c1 r1]; [split; [done|]; by exists []|].
  rewrite TrimLeft_rev_cons.
  destruct r1 as [|c2 [|c3 r]]; simpl in Hn.
  - destruct (strings.ascii_space c1) eqn:H1.
    + split; [done|]. by exists [c1].
    + split; [by rewrite TrimLeft_rev_cons, H1|by exists []].
  - destruct (strings.ascii_space c1) eqn:H1; [apply (Hstep [c1]); [simpl; lia|done]|].
    destruct (is_byte 194 c2 && strings.space_C2 c1) eqn:H2.
    + split; [done|]. by exists [c1; c2].
    + split; [by rewrite TrimLeft_rev_cons, H1, H2|by exists []].
  - destruct (strings.ascii_space c1) eqn:H1; [apply (Hstep [c1]); [simpl; lia|done]|].
    destruct (is_byte 194 c2 && strings.space_C2 c1) eqn:H2;
      [apply (Hstep [c1; c2]); [simpl; lia|done]|].
    destruct (strings.space3 c3 c2 c1) eqn:H3;
      [apply (Hstep [c1; c2; c3]); [simpl; lia|done]|].
    split; [by rewrite TrimLeft_rev_cons, H1, H2, H3|by exists []].
Qed.

Lemma string_of_list_app (a b : list ascii) :
  string_of_list_ascii (a ++ b) = string_of_list_ascii a +:+ string_of_list_ascii b.
Proof.
  induction a as [|c a IH]; simpl; [by rewrite str_app_nil_l|].
  by rewrite str_app_cons, IH.
Qed.

Lemma TrimRight_prefix (t : string) : exists v, t = strings.TrimRight t +:+ v.
Proof.
  unfold strings.TrimRight.
  destruct (TrimLeft_rev_fuel (S (length (rev (list_ascii_of_string t))))
              (rev (list_ascii_of_string t))) as [_ [pre Hpre]]; [lia|].
  exists (string_of_list_ascii (rev pre)).
  rewrite <- string_of_list_app, <- rev_app_distr, <- Hpre, rev_involutive.
  by rewrite string_of_list_ascii_of_string.
Qed.

Lemma TrimRight_idempotent (t : string) :
  strings.TrimRight (strings.TrimRight t) = strings.TrimRight t.
Proof.
  unfold strings.TrimRight.
  rewrite list_ascii_of_string_of_list_ascii, rev_involutive.
  destruct (TrimLeft_rev_fuel (S (length (rev (list_ascii_of_string t))))
              (rev (list_ascii_of_string t))) as [-> _]; [lia|done].
Qed.

Lemma TrimSpace_idem (s : string) :
  strings.TrimSpace (strings.TrimSpace s) = strings.TrimSpace s.
Proof.
  unfold strings.TrimSpace.
  rewrite (TrimLeft_fixed (strings.TrimRight (strings.TrimLeft s))).
  - apply TrimRight_idempotent.
  - destruct (TrimRight_prefix (strings.TrimLeft s)) as [v Hv].
    apply (front_space_prefix _ v). rewrite <- Hv. apply TrimLeft_front.
Qed.

(** [strings.TrimSpace] leaves a trimmed text as it is, and so the
    allow-list loop does the same on lines that come with white space
    around them as on the trimmed lines. *)
Theorem surrounding_space_is_ignored (w : World) (lines : list string)
    (n : nat) (allIPs : list string) (p : Proc) (s : string) :
  strings.TrimSpace (strings.TrimSpace s) = strings.TrimSpace s
  /\ read_entries w (map strings.TrimSpace lines) n allIPs p
     = read_entries w lines n allIPs p.
Proof.
  split; [apply TrimSpace_idem|].
  revert n allIPs p. induction lines as [|text lines IH]; intros n allIPs p; [done|].
  cbn [map read_entries]. rewrite TrimSpace_idem.
  destruct (String.eqb (strings.TrimSpace text) EmptyString); [apply IH|].
  destruct (strings.HasPrefix (strings.TrimSpace text) "#"); [apply IH|].
  destruct (isValidIPv4 (strings.TrimSpace text)); [apply IH|].
  destruct (isValidHostname (strings.TrimSpace text)); [|done].
  unfold mbind, M_bind.
  destruct (resolveHostname w (strings.TrimSpace text) p) as [[resolved|e] p'|code p'];
    [|simpl; apply IH|done].
  destruct (length resolved =? 0)%nat; [simpl|]; apply IH.
Qed.

(** ** The runs of [dig] and the origin of the addresses *)

Lemma literal_entry_skipped (text : string) : is_skipped text = true -> literal_entry text = false.
Proof. unfold literal_entry. by intros ->. Qed.

Lemma domain_entry_skipped (text : string) : is_skipped text = true -> domain_entry text = false.
Proof. unfold domain_entry. by intros ->. Qed.

Lemma entry_kinds (text : string) (c : Classification) :
  is_skipped text = false -> classify (strings.TrimSpace text) = c ->
  literal_entry text = bool_decide (c = LiteralAddress)
  /\ domain_entry text = bool_decide (c = DomainName).
Proof. unfold literal_entry, domain_entry. by intros -> ->. Qed.

(** [dig] runs once for every domain-name entry that the loop reaches,
    whether or not the name has been resolved before: as many runs as
    there are such entries when the loop returns, not more when it ends
    the process. *)
Theorem read_entries_calls (w : World) (lines : list string) :
  forall n ips p,
    match read_entries w lines n ips p with
    | Ret _ p' => calls p' = (calls p + length (List.filter domain_entry lines))%nat
    | Exit _ p' => (calls p' <= calls p + length (List.filter domain_entry lines))%nat
    end.
Proof.
  induction lines as [|text lines IH]; intros n ips p.
  { simpl. lia. }
  destruct (is_skipped text) eqn:Hskip.
  { rewrite read_entries_skipped by done. cbn [List.filter].
    rewrite domain_entry_skipped by done. apply IH. }
  destruct (classify (strings.TrimSpace text)) eqn:Hc;
    destruct (entry_kinds text _ Hskip Hc) as [_ Hd].
  - rewrite read_entries_literal by done. cbn [List.filter]. rewrite Hd. apply IH.
  - rewrite read_entries_domain by done. cbn [List.filter]. rewrite Hd.
    destruct (dig w (calls p) (strings.TrimSpace text)) as [output|e].
    + destruct (parse_dig_output output);
        match goal with |- context [read_entries w lines ?n ?i ?q] =>
          specialize (IH n i q) end;
        destruct (read_entries _ _ _ _ _); simpl in *; lia.
    + match goal with |- context [read_entries w lines ?n ?i ?q] =>
          specialize (IH n i q) end.
      destruct (read_entries _ _ _ _ _); simpl in *; lia.
  - rewrite read_entries_invalid by done. simpl. lia.
Qed.

(** Where the collected addresses come from. *)
Lemma read_entries_provenance_loop (w : World) (lines : list string) :
  forall n ips p ips' p',
    read_entries w lines n ips p = Ret ips' p' ->
    (forall a, a ∈ ips' ->
       a ∈ ips
       \/ (exists text, text ∈ lines /\ literal_entry text = true /\ a = strings.TrimSpace text)
       \/ (exists text k, text ∈ lines /\ domain_entry text = true
                          /\ (calls p <= k < calls p')%nat
                          /\ resolved_from w k (strings.TrimSpace text) a))
    /\ (forall a, a ∈ ips -> a ∈ ips')
    /\ (forall text, text ∈ lines -> literal_entry text = true -> strings.TrimSpace text ∈ ips')
    /\ (calls p <= calls p')%nat.
Proof.
  induction lines as [|text lines IH]; intros n ips p ips' p' Hrun.
  { simpl in Hrun. injection Hrun as <- <-.
    split_and!; [by left|done| |done]. intros text Hin. by apply elem_of_nil in Hin. }
  assert (forall n1 ips1 p1,
            read_entries w lines n1 ips1 p1 = Ret ips' p' ->
            (calls p <= calls p1)%nat ->
            (forall a, a ∈ ips -> a ∈ ips1) ->
            (literal_entry text = true -> strings.TrimSpace text ∈ ips1) ->
            (forall a, a ∈ ips1 ->
               a ∈ ips
               \/ (literal_entry text = true /\ a = strings.TrimSpace text)
               \/ (exists k, domain_entry text = true /\ (calls p <= k < calls p1)%nat
                             /\ resolved_from w k (strings.TrimSpace text) a)) ->
            (forall a, a ∈ ips' ->
               a ∈ ips
               \/ (exists t, t ∈ text :: lines /\ literal_entry t = true
                             /\ a = strings.TrimSpace t)
               \/ (exists t k, t ∈ text :: lines /\ domain_entry t = true
                               /\ (calls p <= k < calls p')%nat
                               /\ resolved_from w k (strings.TrimSpace t) a))
            /\ (forall a, a ∈ ips -> a ∈ ips')
            /\ (forall t, t ∈ text :: lines -> literal_entry t = true ->
                          strings.TrimSpace t ∈ ips')
            /\ (calls p <= calls p')%nat) as Hnext.
  { intros n1 ips1 p1 Hrun1 Hcalls Hkeep Hlit Hfrom.
    destruct (IH _ _ _ _ _ Hrun1) as (H1 & H2 & H3 & H4).
    split_and!.
    - intros a Ha. destruct (H1 a Ha) as [Hin|[(t & Ht & Hl & ->)|(t & k & Ht & Hd & Hk & Hr)]].
      + destruct (Hfrom a Hin) as [?|[[Hl ->]|(k & Hd & Hk & Hr)]]; [by left| |].
        * right; left. exists text. split; [apply elem_of_cons; by left|done].
        * right; right. exists text, k.
          split_and!; [apply elem_of_cons; by left|done|lia|lia|done].
      + right; left. exists t. split; [apply elem_of_cons; by right|done].
      + right; right. exists t, k.
        split_and!; [apply elem_of_cons; by right|done|lia|lia|done].
    - intros a Ha. by apply H2, Hkeep.
    - intros t Ht Hl. apply elem_of_cons in Ht as [->|Ht]; [by apply H2, Hlit|by apply H3].
    - lia. }
  destruct (is_skipped text) eqn:Hskip.
  { rewrite read_entries_skipped in Hrun by done.
    apply (Hnext _ _ _ Hrun); [done|done| |by left].
    by rewrite literal_entry_skipped. }
  destruct (classify (strings.TrimSpace text)) eqn:Hc;
    destruct (entry_kinds text _ Hskip Hc) as [Hl Hd]; simpl in Hl, Hd.
  - rewrite read_entries_literal in Hrun by done.
    apply (Hnext _ _ _ Hrun); [done| | |].
    + intros a Ha. apply elem_of_app. by left.
    + intros _. apply elem_of_app. right. by apply list_elem_of_singleton.
    + intros a Ha. apply elem_of_app in Ha as [Ha|Ha]; [by left|].
      apply list_elem_of_singleton in Ha. right; left. done.
  - rewrite read_entries_domain in Hrun by done.
    destruct (dig w (calls p) (strings.TrimSpace text)) as [output|e] eqn:Hdig.
    + destruct (parse_dig_output output) as [|ip resolved] eqn:Hparse.
      * apply (Hnext _ _ _ Hrun); [simpl; lia|done|by rewrite Hl|by left].
      * apply (Hnext _ _ _ Hrun); [simpl; lia| |by rewrite Hl|].
        -- intros a Ha. apply elem_of_app. by left.
        -- intros a Ha. apply elem_of_app in Ha as [Ha|Ha]; [by left|].
           right; right. exists (calls p). split_and!; [done|simpl; lia|simpl; lia|].
           exists output. by rewrite Hparse.
    + apply (Hnext _ _ _ Hrun); [simpl; lia|done|by rewrite Hl|by left].
  - by rewrite read_entries_invalid in Hrun.
Qed.

Lemma literal_entry_form (text : string) :
  literal_entry text = true -> has_ipv4_form (strings.TrimSpace text) = true.
Proof.
  unfold literal_entry, classify. rewrite andb_true_iff, bool_decide_eq_true.
  intros [_ Hc]. destruct (isValidIPv4 (strings.TrimSpace text)) eqn:H4.
  - rewrite isValidIPv4_unfold, !andb_true_iff in H4. tauto.
  - by destruct (isValidHostname (strings.TrimSpace text)).
Qed.

Lemma resolved_from_form (w : World) (k : nat) (hostname a : string) :
  resolved_from w k hostname a -> has_ipv4_form a = true.
Proof.
  intros (output & _ & Ha). unfold parse_dig_output in Ha.
  rewrite keep_addresses_filter in Ha. simpl in Ha.
  apply list_elem_of_In, filter_In in Ha. tauto.
Qed.

(** Where the collected addresses come from: each one is the trimmed
    text of a literal entry of the allow-list, or an address that
    [resolveHostname] kept of the answer of one run of [dig] on a
    domain-name entry; and every literal entry is collected. *)
Theorem collected_addresses_origin (w : World) (lines : list string) (n : nat)
    (allIPs : list string) (p p' : Proc) :
  read_entries w lines n [] p = Ret allIPs p' ->
  (forall a, a ∈ allIPs ->
     (exists text, text ∈ lines /\ literal_entry text = true /\ a = strings.TrimSpace text)
     \/ (exists text k, text ∈ lines /\ domain_entry text = true
                        /\ (calls p <= k < calls p')%nat
                        /\ resolved_from w k (strings.TrimSpace text) a))
  /\ (forall text, text ∈ lines -> literal_entry text = true ->
        strings.TrimSpace text ∈ allIPs).
Proof.
  intros Hrun.
  destruct (read_entries_provenance_loop w lines n [] p allIPs p' Hrun) as (H1 & _ & H3 & _).
  split; [|done]. intros a Ha.
  destruct (H1 a Ha) as [Hnil|H]; [by apply elem_of_nil in Hnil|done].
Qed.

Lemma read_entries_forms (w : World) (lines : list string) (n : nat)
    (allIPs : list string) (p p' : Proc) :
  read_entries w lines n [] p = Ret allIPs p' ->
  Forall (fun a => has_ipv4_form a = true) allIPs.
Proof.
  intros Hrun. apply Forall_forall. intros a Ha.
  destruct (read_entries_provenance_loop w lines n [] p allIPs p' Hrun) as (H1 & _).
  destruct (H1 a Ha) as [Hnil|[(text & _ & Hl & ->)|(text & k & _ & _ & _ & Hr)]].
  - by apply elem_of_nil in Hnil.
  - by apply literal_entry_form.
  - by apply (resolved_from_form w k (strings.TrimSpace text)).
Qed.

(** ** The ways out of [main] *)

(** What the allow-list loop does to the process: nothing on standard
    output, warnings on standard error, and when it ends the process,
    exit code 1 after one ERROR line. *)
Lemma read_entries_shape (w : World) (lines : list string) :
  forall n ips p,
    match read_entries w lines n ips p with
    | Ret _ p' =>
        out p' = out p /\ exists ws, err p' = err p ++ ws /\ Forall is_warning ws
    | Exit code p' =>
        code = 1%Z /\ out p' = out p
        /\ exists ws msg, err p' = err p ++ ws ++ [error_text msg] /\ Forall is_warning ws
    end.
Proof.
  induction lines as [|text lines IH]; intros n ips p.
  { simpl. split; [done|]. exists []. by rewrite app_nil_r. }
  assert (forall n' ips' (q : Proc) ws0,
             out q = out p -> err q = err p ++ ws0 -> Forall is_warning ws0 ->
             match read_entries w lines n' ips' q with
             | Ret _ p' =>
                 out p' = out p /\ exists ws, err p' = err p ++ ws /\ Forall is_warning ws
             | Exit code p' =>
                 code = 1%Z /\ out p' = out p
                 /\ exists ws msg, err p' = err p ++ ws ++ [error_text msg]
                                   /\ Forall is_warning ws
             end) as Hnext.
  { intros n' ips' q ws0 Hout Herr Hws. specialize (IH n' ips' q).
    destruct (read_entries w lines n' ips' q) as [a p'|code p'].
    - destruct IH as (Ho & ws & He & Hw). split; [congruence|].
      exists (ws0 ++ ws). rewrite He, Herr, app_assoc. split; [done|by apply Forall_app].
    - destruct IH as (Hc & Ho & ws & msg & He & Hw). split_and!; [done|congruence|].
      exists (ws0 ++ ws), msg. rewrite He, Herr, !app_assoc.
      split; [done|by apply Forall_app]. }
  destruct (is_skipped text) eqn:Hskip.
  { rewrite read_entries_skipped by done.
    apply (Hnext _ _ p []); [done|by rewrite app_nil_r|constructor]. }
  destruct (classify (strings.TrimSpace text)) eqn:Hc.
  - rewrite read_entries_literal by done.
    apply (Hnext _ _ p []); [done|by rewrite app_nil_r|constructor].
  - rewrite read_entries_domain by done.
    destruct (dig w (calls p) (strings.TrimSpace text)) as [output|e].
    + destruct (parse_dig_output output).
      * eapply (Hnext _ _ _ [warn_text _]); [done|done|]. repeat constructor. by eexists.
      * apply (Hnext _ _ _ []); [done|by rewrite app_nil_r|constructor].
    + eapply (Hnext _ _ _ [warn_text _]); [done|done|]. repeat constructor. by eexists.
  - rewrite read_entries_invalid by done. split_and!; [done|done|].
    by exists [], (invalid_message (S n) (strings.TrimSpace text)).
Qed.

(** [main] with an allow-list that opens, by the end of the allow-list
    loop. *)
Lemma main_after_loop (w : World) (prog cfg : string) (rest : list string) (file : File) :
  (length rest <= 1)%nat ->
  fs w cfg = Some file ->
  main w prog (cfg :: rest)
  = match read_entries w (bufio.scan file).1 0 [] start with
    | Exit code p => {| stdout := out p; stderr := err p; exit_code := code |}
    | Ret allIPs p =>
        match (bufio.scan file).2 with
        | Some e =>
            {| stdout := out p;
               stderr := err p ++ [error_text ("Error reading config file: " +:+ e)];
               exit_code := 1 |}
        | None =>
            match output w (default EmptyString (rest !! 0%nat)) allIPs p with
            | Ret _ p' => {| stdout := out p'; stderr := err p'; exit_code := 0 |}
            | Exit code p' => {| stdout := out p'; stderr := err p'; exit_code := code |}
            end
        end
    end.
Proof.
  intros Hlen Hfs. unfold main.
  rewrite main_body_reads with (file := file) by done.
  unfold mbind at 1, M_bind at 1.
  destruct (read_entries w (bufio.scan file).1 0 [] start) as [allIPs p|code p]; [|done].
  by destruct (bufio.scan file).2.
Qed.

(** The run of the output stage. *)
Lemma output_run (w : World) (wg : string) (allIPs : list string) (p : Proc) :
  output w wg allIPs p
  = if String.eqb wg EmptyString then
      Ret tt (if (0 <? length (aggregate allIPs))%nat
              then add_out (joined allIPs +:+ newline) p else p)
    else
      match fs w wg with
      | None =>
          Exit 1 (add_err (error_text ("WireGuard config file does not exist: " +:+ wg)) p)
      | Some wgFile =>
          let p' := {| out := out p ++ map (config_line (joined allIPs)) (bufio.scan wgFile).1;
                       err := err p; calls := calls p |} in
          match (bufio.scan wgFile).2 with
          | Some e =>
              Exit 1 (add_err (error_text ("Error reading WireGuard config file: " +:+ e)) p')
          | None => Ret tt p'
          end
      end.
Proof.
  unfold output.
  destruct (String.eqb wg EmptyString).
  { by destruct (0 <? length (aggregate allIPs))%nat. }
  destruct (fs w wg) as [wgFile|]; [|done].
  destruct (bufio.scan wgFile) as [wgLines wg_err].
  unfold mbind, M_bind. rewrite emit_config_spec. by destruct wg_err.
Qed.

(** [main] ends in one of three ways: with the usage text and exit code 1
    when it is not given one or two arguments; with exit code 0 and
    nothing but warnings on standard error; or with exit code 1 and,
    after the warnings, one ERROR line.  When it fails, standard output
    is empty, unless the failure is that of reading the WireGuard
    configuration. *)
Theorem main_outcomes (w : World) (prog : string) (args : list string) :
  (length args <> 1%nat /\ length args <> 2%nat
   /\ main w prog args
      = {| stdout := [];
           stderr := ["Usage: " +:+ prog +:+ " <allowed-file> [wg-config]" +:+ newline];
           exit_code := 1 |})
  \/ (exit_code (main w prog args) = 0%Z /\ Forall is_warning (stderr (main w prog args)))
  \/ (exit_code (main w prog args) = 1%Z
      /\ exists ws msg,
           stderr (main w prog args) = ws ++ [error_text msg]
           /\ Forall is_warning ws
           /\ (stdout (main w prog args) = []
               \/ exists e, msg = "Error reading WireGuard config file: " +:+ e)).
Proof.
  destruct (decide (length args = 1%nat \/ length args = 2%nat)) as [Hlen|Hlen].
  2: { left. split_and!; [tauto|tauto|]. unfold main, main_body.
       destruct args as [|a [|b [|c args]]]; simpl in Hlen; try tauto; done. }
  right.
  destruct args as [|cfg rest]; [simpl in Hlen; lia|].
  assert (length rest <= 1)%nat as Hrest by (simpl in Hlen; lia).
  destruct (fs w cfg) as [file|] eqn:Hfs.
  2: { right.
       assert (main w prog (cfg :: rest)
               = {| stdout := [];
                    stderr := [error_text ("Config file does not exist: " +:+ cfg)];
                    exit_code := 1 |}) as ->.
       { unfold main, main_body.
         destruct rest as [|wg [|? ?]]; [| |simpl in Hrest; lia]; simpl; by rewrite Hfs. }
       simpl. split; [done|]. eexists [], _. split_and!; [done|constructor|by left]. }
  rewrite (main_after_loop w prog cfg rest file) by done.
  pose proof (read_entries_shape w (bufio.scan file).1 0 [] start) as Hshape.
  destruct (read_entries w (bufio.scan file).1 0 [] start) as [allIPs p|code p].
  2: { destruct Hshape as (-> & Hout & ws & msg & Herr & Hws). right. simpl.
       split; [done|]. exists ws, msg. split_and!; [done|done|by left]. }
  destruct Hshape as (Hout & ws & Herr & Hws). simpl in Hout, Herr.
  destruct (bufio.scan file).2 as [e|].
  { right. simpl. split; [done|]. eexists ws, _. rewrite Herr.
    split_and!; [done|done|by left]. }
  rewrite output_run.
  destruct (String.eqb (default EmptyString (rest !! 0%nat)) EmptyString).
  { left. destruct (0 <? length (aggregate allIPs))%nat; simpl; by rewrite Herr. }
  destruct (fs w (default EmptyString (rest !! 0%nat))) as [wgFile|].
  2: { right. simpl. split; [done|]. eexists ws, _. rewrite Herr, Hout.
       split_and!; [done|done|by left]. }
  cbv zeta. destruct (bufio.scan wgFile).2 as [e|]; simpl.
  - right. split; [done|]. eexists ws, _. rewrite Herr.
    split_and!; [done|done|]. right. by exists e.
  - left. by rewrite Herr.
Qed.

(** A file that cannot be opened ends the run with exit code 1 and one
    ERROR line that names the path: the allow-list before anything else
    is done, the WireGuard configuration after the whole allow-list has
    been read and resolved, with the warnings of the loop before the
    ERROR line and nothing on standard output. *)
Theorem missing_file_is_fatal (w : World) (prog cfg wg : string) (file : File)
    (allIPs : list string) (p : Proc) :
  (forall rest, (length rest <= 1)%nat -> fs w cfg = None ->
     main w prog (cfg :: rest)
     = {| stdout := [];
          stderr := [error_text ("Config file does not exist: " +:+ cfg)];
          exit_code := 1 |})
  /\ (wg <> EmptyString ->
      fs w cfg = Some file ->
      (bufio.scan file).2 = None ->
      read_entries w (bufio.scan file).1 0 [] start = Ret allIPs p ->
      fs w wg = None ->
      main w prog [cfg; wg]
      = {| stdout := [];
           stderr := err p
                     ++ [error_text ("WireGuard config file does not exist: " +:+ wg)];
           exit_code := 1 |}).
Proof.
  split.
  - intros rest Hlen Hfs. unfold main, main_body.
    destruct rest as [|wg' [|? ?]]; [| |simpl in Hlen; lia]; simpl; by rewrite Hfs.
  - intros Hwg Hfs Herr Hrun Hfs'.
    rewrite (main_after_loop w prog cfg [wg] file) by (done || simpl; lia).
    rewrite Hrun, Herr, output_run.
    change (default EmptyString ([wg] !! 0%nat)) with wg.
    apply String.eqb_neq in Hwg. rewrite Hwg, Hfs'.
    pose proof (read_entries_out w (bufio.scan file).1 0 [] start) as Hout.
    rewrite Hrun in Hout. simpl in Hout. simpl. by rewrite Hout.
Qed.

(** An I/O error while the allow-list is read is reported after the loop
    has handled every line that was read: the warnings of those lines,
    then the ERROR line with the error; exit code 1, nothing on standard
    output. *)
Theorem allow_list_read_error_is_fatal (w : World) (prog cfg : string)
    (rest : list string) (file : File) (e : error) (allIPs : list string) (p : Proc) :
  (length rest <= 1)%nat ->
  fs w cfg = Some file ->
  (bufio.scan file).2 = Some e ->
  read_entries w (bufio.scan file).1 0 [] start = Ret allIPs p ->
  main w prog (cfg :: rest)
  = {| stdout := [];
       stderr := err p ++ [error_text ("Error reading config file: " +:+ e)];
       exit_code := 1 |}.
Proof.
  intros Hlen Hfs Herr Hrun.
  rewrite (main_after_loop w prog cfg rest file) by done.
  rewrite Hrun, Herr.
  pose proof (read_entries_out w (bufio.scan file).1 0 [] start) as Hout.
  rewrite Hrun in Hout. simpl in Hout. by rewrite Hout.
Qed.

Lemma tokens_long (pre : list string) (long : string) (post : list string)
    (failure : option error) :
  Forall (fun r => N.of_nat (String.length r) < bufio.MaxScanTokenSize) pre ->
  (bufio.MaxScanTokenSize <=? N.of_nat (String.length long)) = true ->
  bufio.tokens (pre ++ long :: post) failure = (map bufio.dropCR pre, Some bufio.ErrTooLong).
Proof.
  intros Hpre Hlong. induction Hpre as [|r pre Hr _ IH].
  - simpl. by rewrite Hlong.
  - rewrite <- app_comm_cons. cbn [bufio.tokens map].
    apply N.leb_gt in Hr. by rewrite Hr, IH.
Qed.

(** A line of 65536 bytes or more ends the reading of the allow-list: the
    lines before it are handled, the line itself and the lines after it
    are not looked at, and the run fails with the scanner's
    [token too long]. *)
Theorem long_line_stops_reading (w : World) (prog cfg : string) (rest : list string)
    (file : File) (pre : list string) (long : string) (post : list string)
    (allIPs : list string) (p : Proc) :
  (length rest <= 1)%nat ->
  fs w cfg = Some file ->
  bufio.raw_lines (data file) = pre ++ long :: post ->
  Forall (fun r => N.of_nat (String.length r) < bufio.MaxScanTokenSize) pre ->
  (bufio.MaxScanTokenSize <=? N.of_nat (String.length long)) = true ->
  read_entries w (map bufio.dropCR pre) 0 [] start = Ret allIPs p ->
  main w prog (cfg :: rest)
  = {| stdout := [];
       stderr := err p ++ [error_text ("Error reading config file: " +:+ bufio.ErrTooLong)];
       exit_code := 1 |}.
Proof.
  intros Hlen Hfs Hraw Hpre Hlong Hrun.
  rewrite (main_after_loop w prog cfg rest file) by done.
  unfold bufio.scan. rewrite Hraw, (tokens_long pre long post) by done.
  cbn [fst snd]. rewrite Hrun.
  pose proof (read_entries_out w (map bufio.dropCR pre) 0 [] start) as Hout.
  rewrite Hrun in Hout. simpl in Hout. by rewrite Hout.
Qed.

(** The run in substitution mode, after an allow-list loop that returns. *)
Lemma main_substitution_run (w : World) (prog cfg wg : string) (file wgFile : File)
    (allIPs : list string) (p : Proc) :
  wg <> EmptyString ->
  fs w cfg = Some file ->
  (bufio.scan file).2 = None ->
  read_entries w (bufio.scan file).1 0 [] start = Ret allIPs p ->
  fs w wg = Some wgFile ->
  main w prog [cfg; wg]
  = {| stdout := map (config_line (joined allIPs)) (bufio.scan wgFile).1;
       stderr := err p ++ match (bufio.scan wgFile).2 with
                          | Some e => [error_text
                                         ("Error reading WireGuard config file: " +:+ e)]
                          | None => []
                          end;
       exit_code := match (bufio.scan wgFile).2 with Some _ => 1 | None => 0 end |}.
Proof.
  intros Hwg Hfs Herr Hrun Hfs'. unfold main.
  rewrite main_body_reads with (file := file) by (done || simpl; lia).
  unfold mbind at 1, M_bind at 1. rewrite Hrun, Herr.
  pose proof (read_entries_out w (bufio.scan file).1 0 [] start) as Hout.
  rewrite Hrun in Hout. simpl in Hout.
  change (default EmptyString ([wg] !! 0%nat)) with wg. unfold output.
  apply String.eqb_neq in Hwg. rewrite Hwg, Hfs'.
  destruct (bufio.scan wgFile) as [wgLines wg_err].
  unfold mbind, M_bind. rewrite emit_config_spec, Hout.
  destruct wg_err; simpl; [done|]. by rewrite app_nil_r.
Qed.

(** An I/O error while the WireGuard configuration is read comes after
    the output: every line that was read has been written to standard
    output, replaced or copied, when the ERROR line is written and the
    run ends with exit code 1. *)
Theorem config_read_error_after_output (w : World) (prog cfg wg : string)
    (file wgFile : File) (e : error) (allIPs : list string) (p : Proc) :
  wg <> EmptyString ->
  fs w cfg = Some file ->
  (bufio.scan file).2 = None ->
  read_entries w (bufio.scan file).1 0 [] start = Ret allIPs p ->
  fs w wg = Some wgFile ->
  (bufio.scan wgFile).2 = Some e ->
  main w prog [cfg; wg]
  = {| stdout := map (config_line (joined allIPs)) (bufio.scan wgFile).1;
       stderr := err p ++ [error_text ("Error reading WireGuard config file: " +:+ e)];
       exit_code := 1 |}.
Proof.
  intros Hwg Hfs Herr Hrun Hfs' Herr'.
  rewrite (main_substitution_run w prog cfg wg file wgFile allIPs p) by done.
  by rewrite Herr'.
Qed.

(** An empty second argument selects list mode: the run is that of the
    first argument alone. *)
Theorem empty_second_argument_is_list_mode (w : World) (prog cfg : string) :
  main w prog [cfg; EmptyString] = main w prog [cfg].
Proof.
  unfold main, main_body. simpl.
  destruct (fs w cfg) as [file|]; [|done].
  by destruct (bufio.scan file).
Qed.

(** A run that ends with exit code 0 opened its allow-list, read it to the
    end without an I/O error and met no invalid entry. *)
Lemma main_success_inv (w : World) (prog : string) (args : list string) :
  exit_code (main w prog args) = 0%Z ->
  exists cfg rest file allIPs p,
    args = cfg :: rest /\ (length rest <= 1)%nat
    /\ fs w cfg = Some file /\ (bufio.scan file).2 = None
    /\ read_entries w (bufio.scan file).1 0 [] start = Ret allIPs p.
Proof.
  intros Hexit.
  destruct args as [|cfg rest].
  { by vm_compute in Hexit. }
  destruct (decide (length rest <= 1)%nat) as [Hlen|Hlen].
  2: { destruct rest as [|a [|b rest]]; simpl in Hlen; try lia.
       exfalso. revert Hexit. unfold main, main_body. cbn.
       unfold usage, mbind, M_bind, print_err, os_Exit. by cbn. }
  destruct (fs w cfg) as [file|] eqn:Hfs.
  2: { exfalso. revert Hexit. unfold main, main_body.
       destruct rest as [|wg [|? ?]]; [| |simpl in Hlen; lia]; simpl; by rewrite Hfs. }
  exists cfg, rest, file.
  revert Hexit. unfold main. rewrite main_body_reads with (file := file) by done.
  destruct (read_entries w (bufio.scan file).1 0 [] start) as [allIPs p|code p] eqn:Hrun;
    unfold mbind at 1, M_bind at 1; rewrite Hrun.
  2: { pose proof (read_entries_shape w (bufio.scan file).1 0 [] start) as Hshape.
       rewrite Hrun in Hshape. destruct Hshape as [-> _]. done. }
  destruct (bufio.scan file).2 as [e|]; [done|].
  intros _. by exists allIPs, p.
Qed.

(** What a successful run in list mode prints: nothing, or one line, the
    comma-joined list of one or more texts in ascending order and without
    repetition, each of which [net.ParseIP] reads as an address with a
    4-byte form.  No text holds a comma: splitting the line at the commas
    gives the list back. *)
Theorem list_mode_prints_addresses (w : World) (prog cfg : string) :
  exit_code (main w prog [cfg]) = 0%Z ->
  exists l,
    stdout (main w prog [cfg])
    = match l with [] => [] | _ => [strings.Join l "," +:+ newline] end
    /\ Forall (fun a => has_ipv4_form a = true) l
    /\ NoDup l /\ Sorted str_le l
    /\ (l <> [] -> strings.Split (strings.Join l ",") comma = l).
Proof.
  intros Hexit.
  destruct (main_success_inv w prog [cfg] Hexit)
    as (cfg' & rest & file & allIPs & p & Hargs & _ & Hfs & Herr & Hrun).
  injection Hargs as <- <-.
  exists (aggregate allIPs).
  assert (Forall (fun a => has_ipv4_form a = true) (aggregate allIPs)) as Hforms.
  { apply Forall_forall. intros a Ha.
    unfold aggregate in Ha. rewrite Strings_Permutation in Ha.
    rewrite removeDuplicates_elem_of in Ha.
    pose proof (read_entries_forms _ _ _ _ _ _ Hrun) as Hall.
    rewrite Forall_forall in Hall. by apply Hall. }
  split_and!.
  - rewrite (main_list_mode w prog cfg file allIPs p) by done. simpl.
    unfold joined. by destruct (aggregate allIPs).
  - done.
  - unfold aggregate. rewrite Strings_Permutation. apply removeDuplicates_NoDup.
  - apply Strings_Sorted.
  - intros Hne. apply (Split_Join _ comma Hne).
    eapply Forall_impl; [exact Hforms|]. intros a Ha.
    by apply address_byte_not_comma, has_ipv4_form_bytes.
Qed.

(** ** A configuration without [AllowedIPs] *)

Lemma written_cons (x : string) (l : list string) : written (x :: l) = x +:+ written l.
Proof.
  unfold written. destruct l as [|y l]; simpl.
  - by rewrite str_app_nil_r.
  - done.
Qed.

Lemma raw_lines_nil (s : string) : bufio.raw_lines s = [] -> s = EmptyString.
Proof.
  destruct s as [|c s]; [done|]. simpl.
  destruct (Ascii.eqb c LF); [done|]. by destruct (bufio.raw_lines s).
Qed.

Lemma raw_lines_written (s : string) :
  written (map (fun r => r +:+ newline) (bufio.raw_lines s)) = terminated s.
Proof.
  induction s as [|c s IH]; [done|].
  cbn [bufio.raw_lines terminated].
  destruct (Ascii.eqb c LF) eqn:Hc.
  - apply Ascii.eqb_eq in Hc as ->. cbn [map]. rewrite written_cons, IH.
    rewrite str_app_nil_l. unfold newline. rewrite str_app_cons, str_app_nil_l.
    by destruct s.
  - destruct (bufio.raw_lines s) as [|l ls] eqn:Hraw.
    + apply raw_lines_nil in Hraw as ->. cbn [map]. rewrite written_cons.
      simpl. by rewrite str_app_nil_r.
    + cbn [map] in *. rewrite written_cons in *. rewrite str_app_cons, str_app_cons, IH.
      by destruct s.
Qed.

Lemma raw_lines_bytes (p : ascii -> bool) (s : string) :
  all_bytes p s = true -> Forall (fun r => all_bytes p r = true) (bufio.raw_lines s).
Proof.
  induction s as [|c s IH]; [constructor|]. simpl.
  rewrite andb_true_iff. intros [Hc Hs]. specialize (IH Hs).
  destruct (Ascii.eqb c LF); [by constructor|].
  destruct (bufio.raw_lines s) as [|l ls]; [repeat constructor; simpl; by rewrite Hc|].
  apply Forall_cons in IH as [Hl Hls]. constructor; [|done]. simpl. by rewrite Hc, Hl.
Qed.

Lemma dropCR_no_CR (r : string) : no_CR r = true -> bufio.dropCR r = r.
Proof.
  unfold no_CR. induction r as [|c r IH]; [done|]. simpl.
  rewrite andb_true_iff, negb_true_iff. intros [Hc Hr].
  destruct r as [|c' r]; [by rewrite Hc|]. by rewrite IH.
Qed.

Lemma tokens_short (raws : list string) :
  Forall (fun r => N.of_nat (String.length r) < bufio.MaxScanTokenSize) raws ->
  bufio.tokens raws None = (map bufio.dropCR raws, None).
Proof.
  induction raws as [|r raws IH]; [done|]. intros H.
  apply Forall_cons in H as [Hr Hraws]. cbn [bufio.tokens map].
  apply N.leb_gt in Hr. rewrite Hr, IH by done. done.
Qed.

Lemma map_dropCR_no_CR (raws : list string) :
  Forall (fun r => no_CR r = true) raws -> map bufio.dropCR raws = raws.
Proof.
  induction 1 as [|r raws Hr _ IH]; [done|]. simpl. by rewrite dropCR_no_CR, IH.
Qed.

Lemma map_config_line_other (value : string) (lines : list string) :
  Forall (fun r => strings.HasPrefix (strings.TrimSpace r) "AllowedIPs" = false) lines ->
  map (config_line value) lines = map (fun r => r +:+ newline) lines.
Proof.
  induction 1 as [|r raws Hr _ IH]; [done|]. simpl.
  unfold config_line at 1. by rewrite Hr, IH.
Qed.

(** A configuration without [CR], without a line of 65536 bytes or more
    and without a line that starts with [AllowedIPs] is copied to
    standard output byte for byte, with its last line terminated. *)
Theorem substitution_copies_other_lines (w : World) (prog cfg wg : string)
    (file wgFile : File) (allIPs : list string) (p : Proc) :
  wg <> EmptyString ->
  fs w cfg = Some file ->
  (bufio.scan file).2 = None ->
  read_entries w (bufio.scan file).1 0 [] start = Ret allIPs p ->
  fs w wg = Some wgFile ->
  failure wgFile = None ->
  no_CR (data wgFile) = true ->
  Forall (fun r => N.of_nat (String.length r) < bufio.MaxScanTokenSize
                   /\ strings.HasPrefix (strings.TrimSpace r) "AllowedIPs" = false)
         (bufio.raw_lines (data wgFile)) ->
  written (stdout (main w prog [cfg; wg])) = terminated (data wgFile)
  /\ exit_code (main w prog [cfg; wg]) = 0%Z.
Proof.
  intros Hwg Hfs Herr Hrun Hfs' Hfail Hcr Hlines.
  rewrite (main_substitution_run w prog cfg wg file wgFile allIPs p) by done.
  assert (bufio.scan wgFile = (bufio.raw_lines (data wgFile), None)) as ->.
  { unfold bufio.scan. rewrite Hfail, tokens_short.
    - f_equal. apply map_dropCR_no_CR. by apply raw_lines_bytes.
    - eapply Forall_impl; [exact Hlines|]. by intros r [? _]. }
  simpl. split; [|done].
  rewrite <- raw_lines_written. f_equal. apply map_config_line_other.
  eapply Forall_impl; [exact Hlines|]. by intros r [_ ?].
Qed.

(** ** The theorems at the sample environment *)

Lemma C7_witness :
  exists (i : nat) (text : string) (warnings : list string),
    (bufio.scan bad_txt).1 !! i = Some text
    /\ invalid_entry text
    /\ (forall j t, (j < i)%nat -> (bufio.scan bad_txt).1 !! j = Some t -> ~ invalid_entry t)
    /\ Forall is_warning warnings
    /\ main demo "wg-allowedips" ["bad.txt"]
       = {| stdout := [];
            stderr := warnings ++
              [error_text ("Line " +:+ itoa (S i)
                           +:+ ": Invalid entry (not an IPv4 or hostname): "
                           +:+ strings.TrimSpace text)];
            exit_code := 1 |}.
Proof.
  apply (C7_invalid_entry_aborts demo "wg-allowedips" "bad.txt" [] bad_txt).
  - simpl. lia.
  - reflexivity.
  - apply (bool_decide_unpack _). vm_compute. exact I.
Defined.


(** What the allow-list loop leaves of [allowed.txt]. *)
Lemma allowed_txt_read :
  read_entries demo (bufio.scan allowed_txt).1 0 [] start
  = Ret ["10.0.0.2"; "10.0.0.1"; "10.9.9.9"; "10.0.0.10"; "10.0.0.1"]
      {| out := [];
         err := [warn_text "Line 6: Failed to resolve hostname nx.example: exit status 9";
                 warn_text "Line 7: No DNS results for hostname: empty.example"];
         calls := 3 |}.
Proof. vm_compute. reflexivity. Qed.

Lemma C9_witness :
  (aggregate ["10.0.0.2"; "10.0.0.1"; "10.9.9.9"; "10.0.0.10"; "10.0.0.1"] <> [] ->
     main demo "wg-allowedips" ["allowed.txt"]
     = {| stdout := [joined ["10.0.0.2"; "10.0.0.1"; "10.9.9.9"; "10.0.0.10"; "10.0.0.1"]
                     +:+ newline];
          stderr := [warn_text "Line 6: Failed to resolve hostname nx.example: exit status 9";
                     warn_text "Line 7: No DNS results for hostname: empty.example"];
          exit_code := 0 |})
  /\ (aggregate ["10.0.0.2"; "10.0.0.1"; "10.9.9.9"; "10.0.0.10"; "10.0.0.1"] = [] ->
      main demo "wg-allowedips" ["allowed.txt"]
      = {| stdout := [];
           stderr := [warn_text "Line 6: Failed to resolve hostname nx.example: exit status 9";
                      warn_text "Line 7: No DNS results for hostname: empty.example"];
           exit_code := 0 |})
  /\ (Forall (fun t => is_skipped t = true) (bufio.scan allowed_txt).1 ->
      main demo "wg-allowedips" ["allowed.txt"]
      = {| stdout := []; stderr := []; exit_code := 0 |}).
Proof.
  apply (C9_list_mode_output demo "wg-allowedips" "allowed.txt" allowed_txt
           ["10.0.0.2"; "10.0.0.1"; "10.9.9.9"; "10.0.0.10"; "10.0.0.1"]
           {| out := [];
              err := [warn_text "Line 6: Failed to resolve hostname nx.example: exit status 9";
                      warn_text "Line 7: No DNS results for hostname: empty.example"];
              calls := 3 |}).
  - reflexivity.
  - vm_compute. reflexivity.
  - vm_compute. reflexivity.
Defined.

Lemma C5_witness :
  stdout (main demo "wg-allowedips" ["allowed.txt"; "wg0.conf"]) !! 3%nat
  = Some ("AllowedIPs = "
          +:+ joined ["10.0.0.2"; "10.0.0.1"; "10.9.9.9"; "10.0.0.10"; "10.0.0.1"]
          +:+ newline)
  /\ strings.HasPrefix (strings.TrimSpace "AllowedIPsX = 1.2.3.4") "AllowedIPs" = true.
Proof.
  apply (C5_every_matching_line_is_replaced demo "wg-allowedips" "allowed.txt" "wg0.conf"
           allowed_txt wg0_conf
           ["10.0.0.2"; "10.0.0.1"; "10.9.9.9"; "10.0.0.10"; "10.0.0.1"]
           {| out := [];
              err := [warn_text "Line 6: Failed to resolve hostname nx.example: exit status 9";
                      warn_text "Line 7: No DNS results for hostname: empty.example"];
              calls := 3 |}
           3%nat "AllowedIPsX = 1.2.3.4").
  - discriminate.
  - reflexivity.
  - vm_compute. reflexivity.
  - vm_compute. reflexivity.
  - reflexivity.
  - vm_compute. reflexivity.
  - vm_compute. reflexivity.
Defined.


Lemma C10_witness :
  stdout (main demo "wg-allowedips" ["comments.txt"; "wg0.conf"]) !! 2%nat
  = Some ("AllowedIPs = " +:+ newline).
Proof.
  apply (C10_empty_collection_still_substitutes demo "wg-allowedips" "comments.txt"
           "wg0.conf" comments_txt wg0_conf [] start 2%nat "  AllowedIPs = 192.168.0.0").
  - discriminate.
  - reflexivity.
  - vm_compute. reflexivity.
  - vm_compute. reflexivity.
  - reflexivity.
  - vm_compute. reflexivity.
  - vm_compute. reflexivity.
  - vm_compute. reflexivity.
Defined.

Example demo_list : main demo "wg-allowedips" ["allowed.txt"]
  = {| stdout := ["10.0.0.1,10.0.0.10,10.0.0.2,10.9.9.9" +:+ newline];
       stderr := [warn_text "Line 6: Failed to resolve hostname nx.example: exit status 9";
                  warn_text "Line 7: No DNS results for hostname: empty.example"];
       exit_code := 0 |}.
Proof. vm_compute. reflexivity. Qed.

Example demo_substitution :
  stdout (main demo "wg-allowedips" ["allowed.txt"; "wg0.conf"])
  = ["[Peer]" +:+ newline;
     "PublicKey = abc" +:+ newline;
     "AllowedIPs = 10.0.0.1,10.0.0.10,10.0.0.2,10.9.9.9" +:+ newline;
     "AllowedIPs = 10.0.0.1,10.0.0.10,10.0.0.2,10.9.9.9" +:+ newline;
     "Endpoint = vpn.example:51820" +:+ newline].
Proof. vm_compute. reflexivity. Qed.

Example demo_abort : main demo "wg-allowedips" ["bad.txt"; "wg0.conf"]
  = {| stdout := [];
       stderr := [warn_text "Line 2: Failed to resolve hostname nx.example: exit status 9";
                  error_text "Line 3: Invalid entry (not an IPv4 or hostname): a_b"];
       exit_code := 1 |}.
Proof. vm_compute. reflexivity. Qed.

(** What the allow-list loop leaves of [torn.txt]. *)
Lemma torn_txt_read :
  read_entries faulty (bufio.scan torn_txt).1 0 [] start
  = Ret ["10.0.0.1"]
      {| out := [];
         err := [warn_text "Line 2: Failed to resolve hostname nx.example: exit status 9"];
         calls := 1 |}.
Proof. vm_compute. reflexivity. Qed.

Lemma missing_file_witness :
  main faulty "wg-allowedips" ["nowhere.txt"]
  = {| stdout := [];
       stderr := [error_text ("Config file does not exist: " +:+ "nowhere.txt")];
       exit_code := 1 |}
  /\ main faulty "wg-allowedips" ["allowed.txt"; "nowhere.conf"]
     = {| stdout := [];
          stderr := [warn_text "Line 6: Failed to resolve hostname nx.example: exit status 9";
                     warn_text "Line 7: No DNS results for hostname: empty.example"]
                    ++ [error_text ("WireGuard config file does not exist: "
                                    +:+ "nowhere.conf")];
          exit_code := 1 |}.
Proof.
  split.
  - apply (proj1 (missing_file_is_fatal faulty "wg-allowedips" "nowhere.txt" "nowhere.conf"
                    allowed_txt [] start) []).
    + simpl. lia.
    + reflexivity.
  - apply (proj2 (missing_file_is_fatal faulty "wg-allowedips" "allowed.txt" "nowhere.conf"
                    allowed_txt
                    ["10.0.0.2"; "10.0.0.1"; "10.9.9.9"; "10.0.0.10"; "10.0.0.1"]
                    {| out := [];
                       err := [warn_text
                                 "Line 6: Failed to resolve hostname nx.example: exit status 9";
                               warn_text
                                 "Line 7: No DNS results for hostname: empty.example"];
                       calls := 3 |})).
    + discriminate.
    + reflexivity.
    + vm_compute. reflexivity.
    + vm_compute. reflexivity.
    + reflexivity.
Defined.

Lemma allow_list_read_error_witness :
  main faulty "wg-allowedips" ["torn.txt"]
  = {| stdout := [];
       stderr := [warn_text "Line 2: Failed to resolve hostname nx.example: exit status 9"]
                 ++ [error_text ("Error reading config file: "
                                 +:+ "read torn.txt: input/output error")];
       exit_code := 1 |}.
Proof.
  apply (allow_list_read_error_is_fatal faulty "wg-allowedips" "torn.txt" [] torn_txt
           "read torn.txt: input/output error" ["10.0.0.1"]
           {| out := [];
              err := [warn_text "Line 2: Failed to resolve hostname nx.example: exit status 9"];
              calls := 1 |}).
  - simpl. lia.
  - reflexivity.
  - vm_compute. reflexivity.
  - vm_compute. reflexivity.
Defined.

Lemma config_read_error_witness :
  main faulty "wg-allowedips" ["allowed.txt"; "torn.conf"]
  = {| stdout := map (config_line
                        (joined ["10.0.0.2"; "10.0.0.1"; "10.9.9.9"; "10.0.0.10"; "10.0.0.1"]))
                     (bufio.scan torn_conf).1;
       stderr := [warn_text "Line 6: Failed to resolve hostname nx.example: exit status 9";
                  warn_text "Line 7: No DNS results for hostname: empty.example"]
                 ++ [error_text ("Error reading WireGuard config file: "
                                 +:+ "read torn.conf: input/output error")];
       exit_code := 1 |}.
Proof.
  apply (config_read_error_after_output faulty "wg-allowedips" "allowed.txt" "torn.conf"
           allowed_txt torn_conf "read torn.conf: input/output error"
           ["10.0.0.2"; "10.0.0.1"; "10.9.9.9"; "10.0.0.10"; "10.0.0.1"]
           {| out := [];
              err := [warn_text "Line 6: Failed to resolve hostname nx.example: exit status 9";
                      warn_text "Line 7: No DNS results for hostname: empty.example"];
              calls := 3 |}).
  - discriminate.
  - reflexivity.
  - vm_compute. reflexivity.
  - vm_compute. reflexivity.
  - reflexivity.
  - vm_compute. reflexivity.
Defined.

Lemma collected_addresses_witness :
  (forall a, a ∈ ["10.0.0.2"; "10.0.0.1"; "10.9.9.9"; "10.0.0.10"; "10.0.0.1"] ->
     (exists text, text ∈ (bufio.scan allowed_txt).1 /\ literal_entry text = true
                   /\ a = strings.TrimSpace text)
     \/ (exists text k, text ∈ (bufio.scan allowed_txt).1 /\ domain_entry text = true
                        /\ (calls start <= k < 3)%nat
                        /\ resolved_from demo k (strings.TrimSpace text) a))
  /\ (forall text, text ∈ (bufio.scan allowed_txt).1 -> literal_entry text = true ->
        strings.TrimSpace text ∈ ["10.0.0.2"; "10.0.0.1"; "10.9.9.9"; "10.0.0.10"; "10.0.0.1"]).
Proof.
  apply (collected_addresses_origin demo (bufio.scan allowed_txt).1 0
           ["10.0.0.2"; "10.0.0.1"; "10.9.9.9"; "10.0.0.10"; "10.0.0.1"] start
           {| out := [];
              err := [warn_text "Line 6: Failed to resolve hostname nx.example: exit status 9";
                      warn_text "Line 7: No DNS results for hostname: empty.example"];
              calls := 3 |}).
  vm_compute. reflexivity.
Defined.

Lemma list_mode_witness :
  exists l,
    stdout (main demo "wg-allowedips" ["allowed.txt"])
    = match l with [] => [] | _ => [strings.Join l "," +:+ newline] end
    /\ Forall (fun a => has_ipv4_form a = true) l
    /\ NoDup l /\ Sorted str_le l
    /\ (l <> [] -> strings.Split (strings.Join l ",") comma = l).
Proof.
  apply (list_mode_prints_addresses demo "wg-allowedips" "allowed.txt").
  vm_compute. reflexivity.
Defined.

Lemma foreign_byte_witness : classify "10.0.0.0/8" = Invalid.
Proof. apply (foreign_byte_is_invalid "10.0.0.0/8"). vm_compute. reflexivity. Defined.

Lemma dotted_quad_witness :
  isValidHostname "10.0.0.1" = true /\ classify "10.0.0.1" = LiteralAddress.
Proof. apply (dotted_quad_is_hostname "10.0.0.1"); vm_compute; reflexivity. Defined.

Lemma substitution_copy_witness :
  written (stdout (main faulty "wg-allowedips" ["allowed.txt"; "plain.conf"]))
  = terminated (data plain_conf)
  /\ exit_code (main faulty "wg-allowedips" ["allowed.txt"; "plain.conf"]) = 0%Z.
Proof.
  apply (substitution_copies_other_lines faulty "wg-allowedips" "allowed.txt" "plain.conf"
           allowed_txt plain_conf
           ["10.0.0.2"; "10.0.0.1"; "10.9.9.9"; "10.0.0.10"; "10.0.0.1"]
           {| out := [];
              err := [warn_text "Line 6: Failed to resolve hostname nx.example: exit status 9";
                      warn_text "Line 7: No DNS results for hostname: empty.example"];
              calls := 3 |}).
  - discriminate.
  - reflexivity.
  - vm_compute. reflexivity.
  - vm_compute. reflexivity.
  - reflexivity.
  - reflexivity.
  - vm_compute. reflexivity.
  - apply (bool_decide_unpack _). vm_compute. exact I.
Defined.

(** The 65536 bytes of the long line are not written out: the lines of
    [long.txt] are read off the text as it is put together. *)
Lemma raw_lines_app (a b : string) :
  all_bytes (fun c => negb (Ascii.eqb c LF)) a = true ->
  bufio.raw_lines (a +:+ String LF b) = a :: bufio.raw_lines b.
Proof.
  induction a as [|c a IH].
  - intros _. by rewrite str_app_nil_l.
  - rewrite str_app_cons. simpl.
    rewrite andb_true_iff, negb_true_iff. intros [Hc Ha]. by rewrite Hc, (IH Ha).
Qed.

Lemma replicate_bytes (p : ascii -> bool) (n : nat) (c : ascii) :
  p c = true -> all_bytes p (string_of_list_ascii (replicate n c)) = true.
Proof. intros Hc. induction n as [|n IH]; [done|]. simpl. by rewrite Hc, IH. Qed.

Lemma replicate_length (n : nat) (c : ascii) :
  String.length (string_of_list_ascii (replicate n c)) = n.
Proof. induction n as [|n IH]; simpl; [done|]. by rewrite IH. Qed.

(** The three lines of [long.txt]; the second has 65536 bytes. *)
Lemma long_txt_lines :
  bufio.raw_lines (data long_txt) = ["10.0.0.1"] ++ long_line :: ["not an entry"].
Proof.
  change (data long_txt)
    with ("10.0.0.1" +:+ String LF (long_line +:+ String LF ("not an entry" +:+ newline))).
  rewrite raw_lines_app by done.
  rewrite raw_lines_app by (by apply replicate_bytes).
  done.
Qed.

Lemma long_line_length :
  (bufio.MaxScanTokenSize <=? N.of_nat (String.length long_line)) = true.
Proof. unfold long_line. rewrite replicate_length, N2Nat.id. apply N.leb_refl. Qed.

Lemma long_line_witness :
  main oversized "wg-allowedips" ["long.txt"]
  = {| stdout := [];
       stderr := [] ++ [error_text ("Error reading config file: " +:+ bufio.ErrTooLong)];
       exit_code := 1 |}.
Proof.
  apply (long_line_stops_reading oversized "wg-allowedips" "long.txt" [] long_txt
           ["10.0.0.1"] long_line ["not an entry"] ["10.0.0.1"] start).
  - simpl. lia.
  - reflexivity.
  - apply long_txt_lines.
  - apply (bool_decide_unpack _). vm_compute. exact I.
  - apply long_line_length.
  - vm_compute. reflexivity.
Defined.
